(** * news-alerts: the deduplication-aware notification pipeline

    A shallow embedding of the Python sources

      - [src/keyword_matcher.py]   (module [KeywordMatcher])
      - [src/news_fetcher.py]      (module [NewsFetcher])
      - [src/storage.py]           (module [ArticleStorage])
      - [src/telegram_notifier.py] (module [TelegramNotifier])
      - [src/config.py], [main.py] (modules [Config], [Main])

    followed by the properties of the pipeline.

    Conventions of the embedding.
      - A Python [str] is a [string]; texts are ASCII, so the regular
        expression class [\w] is [[A-Za-z0-9_]] and case folding is the
        ASCII one.
      - A [datetime] is the instant it denotes, an integer number of
        microseconds ([Z]); [isoformat]/[fromisoformat] are the identity
        on it, a [timedelta] is a difference of instants.  The range limits
        of [datetime] are not modelled.
      - A [dict] used as a record is a Rocq record; a key that may be
        absent has [option] type and a key that is present holds a value of
        its type (a JSON [null] is not modelled).  [d.get(k, default)] is
        [Py.get] and [d[k]] is [Py.subscript], which raises [KeyError] on
        an absent key.
      - The persisted store (a JSON object keyed by URL) is a
        [gmap string SentRecord]; a Python [set] of strings is a
        [gset string].
      - Exceptions are explicit: a computation that may raise returns a
        [py_result]; [try]/[except] is [try_except].
      - The outside world (feeds, the search API, the chat transport, the
        disk, the clock) is passed in as explicit arguments.  An operator
        interrupt ([KeyboardInterrupt]) is not modelled. *)

From Stdlib Require Import ZArith Ascii String.
From stdpp Require Import gmap strings list fin_maps sorting.

Set Warnings "-clear-no-such-hyp".

Open Scope string_scope.
Open Scope list_scope.
Open Scope Z_scope.

(* ================================================================== *)
(** * Python prelude *)
(* ================================================================== *)

Module Py.

(** The exception classes the sources distinguish. *)
Inductive exn : Type :=
| KeyError
| JSONDecodeError
| OSError
| ValueError
| Timeout
| TelegramError
| OtherException.

Inductive py_result (A : Type) : Type :=
| Ret (a : A)
| Raise (e : exn).
Arguments Ret {A} a.
Arguments Raise {A} e.

Definition bind {A B : Type} (m : py_result A) (k : A -> py_result B)
  : py_result B :=
  match m with
  | Ret a => k a
  | Raise e => Raise e
  end.

(** [try: body / except <handles>: handler]. *)
Definition try_except {A : Type} (body : py_result A)
    (handles : exn -> bool) (handler : exn -> py_result A) : py_result A :=
  match body with
  | Ret a => Ret a
  | Raise e => if handles e then handler e else Raise e
  end.

(** [except Exception]: every class above derives from [Exception]. *)
Definition any_Exception (_ : exn) : bool := true.

(** [d[k]] on an optional key. *)
Definition subscript {A : Type} (field : option A) : py_result A :=
  match field with
  | Some a => Ret a
  | None => Raise KeyError
  end.

(** [d.get(k, default)]. *)
Definition get {A : Type} (field : option A) (default : A) : A :=
  match field with
  | Some a => a
  | None => default
  end.

(** Truth value of a [str]: non-empty. *)
Definition truthy (s : string) : bool :=
  match s with
  | EmptyString => false
  | String _ _ => true
  end.

(** [a or b] on strings. *)
Definition str_or (a b : string) : string := if truthy a then a else b.

(** [l[:n]] for a Python integer [n]: a negative [n] counts from the
    end. *)
Definition slice_to {A : Type} (l : list A) (n : Z) : list A :=
  if 0 <=? n then take (Z.to_nat n) l
  else take (Z.to_nat (Z.of_nat (length l) + n)) l.

End Py.

Import Py.

(** [x ← m; k] sequences computations that may raise. *)
Global Instance py_ret : MRet py_result := @Ret.
Global Instance py_bind : MBind py_result := fun A B k m => Py.bind m k.

(** ** Computations on a state, which may raise *)

(** The state reached when an exception is raised is kept: what was
    written before the failure stays written. *)
Definition St (S A : Type) : Type := S -> py_result A * S.

Global Instance st_ret {S} : MRet (St S) := fun A a s => (Ret a, s).
Global Instance st_bind {S} : MBind (St S) := fun A B k m s =>
  match m s with
  | (Ret a, s') => k a s'
  | (Raise e, s') => (Raise e, s')
  end.

(** A computation that only reads the state. *)
Definition reading {S A} (f : S -> py_result A) : St S A :=
  fun s => (f s, s).

(* ================================================================== *)
(** * src/config.py *)
(* ================================================================== *)

Module Config.

Definition KEYWORDS : list string :=
  [ "OpenAI"; "Anthropic"; "Gemini AI"; "AI agents"; "agentic AI";
    "agentic commerce"; "agentic payments"; "financial agents";
    "agent protocol"; "agent SDK" ].

Definition RSS_FEEDS : list (string * string) :=
  [ ("VentureBeat", "https://venturebeat.com/feed/");
    ("MIT Tech Review", "https://www.technologyreview.com/feed/");
    ("Ars Technica", "https://feeds.arstechnica.com/arstechnica/index") ].

Definition FETCH_WINDOW_HOURS : Z := 8.
Definition MAX_ARTICLES_IN_DIGEST : Z := 5.
Definition CLEANUP_DAYS : Z := 30.

End Config.

(* ================================================================== *)
(** * The canonical article *)
(* ================================================================== *)

(** The dictionary built by the normalizers of [news_fetcher.py] and
    enriched by [KeywordMatcher.filter_articles].  The keys read with
    [.get] somewhere in the sources are optional; [published] and
    [source] are only ever subscripted. *)
Record Article : Type := mkArticle {
  url : option string;
  title : option string;
  description : option string;
  published : Z;
  source : string;
  matched_keywords : option (list string)
}.

Definition set_matched_keywords (a : Article) (ks : list string) : Article :=
  {| url := url a; title := title a; description := description a;
     published := published a; source := source a;
     matched_keywords := Some ks |}.

(** Time units, in microseconds. *)
Definition HOUR : Z := 3600 * 1000000.
Definition DAY : Z := 24 * HOUR.

(* ================================================================== *)
(** * src/keyword_matcher.py *)
(* ================================================================== *)

Module KeywordMatcher.

(** ** Characters *)

(** The patterns are [str] patterns: [\w], [\b] and the case folding of
    [re.IGNORECASE] are the Unicode ones.  On ASCII characters the word
    class is the letters, the digits and the underscore, and the folding
    maps A-Z to a-z; these are the class and the folding below.  They say
    nothing of characters outside ASCII, so what is proved of the matcher
    is stated for keywords and texts that are [ascii_only]. *)
Definition is_word_char (c : ascii) : bool :=
  let n := nat_of_ascii c in
  ((48 <=? n) && (n <=? 57) || (65 <=? n) && (n <=? 90)
   || (97 <=? n) && (n <=? 122) || (n =? 95))%nat.

Definition lower (c : ascii) : ascii :=
  let n := nat_of_ascii c in
  if ((65 <=? n) && (n <=? 90))%nat then ascii_of_nat (n + 32) else c.

(** [\w] at a position that may lie outside the text. *)
Definition is_word (c : option ascii) : bool :=
  match c with
  | Some c => is_word_char c
  | None => false
  end.

(** ** The compiled pattern [\b + re.escape(kw) + \b], [re.IGNORECASE] *)

(** [\b]: exactly one of the two neighbours is a word character. *)
Definition at_boundary (prev next : option ascii) : bool :=
  xorb (is_word prev) (is_word next).

(** The escaped keyword is a literal; it is matched character by
    character, ignoring case.  Returns the last character consumed (or
    [prev] when the literal is empty) and the rest of the text. *)
Fixpoint match_literal (kw text : list ascii) (prev : option ascii)
  : option (option ascii * list ascii) :=
  match kw with
  | [] => Some (prev, text)
  | k :: kw' =>
      match text with
      | [] => None
      | c :: text' =>
          if Ascii.eqb (lower k) (lower c)
          then match_literal kw' text' (Some c)
          else None
      end
  end.

(** The pattern matched at the current position; [prev] is the character
    just before it. *)
Definition match_at (kw : list ascii) (prev : option ascii)
    (text : list ascii) : bool :=
  at_boundary prev (head text)
  && match match_literal kw text prev with
     | Some (last_c, rest) => at_boundary last_c (head rest)
     | None => false
     end.

(** [pattern.search]: try every start position, left to right. *)
Fixpoint search_from (kw : list ascii) (prev : option ascii)
    (text : list ascii) : bool :=
  match_at kw prev text
  || match text with
     | [] => false
     | c :: text' => search_from kw (Some c) text'
     end.

Definition search (kw text : string) : bool :=
  search_from (list_ascii_of_string kw) None (list_ascii_of_string text).

(** ** The class *)

Record t : Type := mk {
  keywords : list string;
  patterns : list string   (* the literal each compiled pattern matches *)
}.

(** [__init__] *)
Definition init (kws : list string) : t :=
  {| keywords := kws; patterns := (fun kw => kw) <$> kws |}.

(** [f"{title} {description}"] *)
Definition text_of (article : Article) : string :=
  let title := Py.get (title article) EmptyString in
  let description := Py.get (description article) EmptyString in
  (title ++ " " ++ description)%string.

(** [find_matches] *)
Definition find_matches (self : t) (article : Article) : gset string :=
  let text := text_of article in
  foldl (fun (matched_keywords : gset string) '(pattern, keyword) =>
           if search pattern text
           then matched_keywords ∪ {[ keyword ]}
           else matched_keywords)
        ∅ (zip (patterns self) (keywords self)).

(** [filter_articles].  [list(matched_keywords)] enumerates the set in
    an order of its own: [elements]. *)
Fixpoint filter_articles (self : t) (articles : list Article)
  : list Article :=
  match articles with
  | [] => []
  | article :: rest =>
      let matched_keywords := find_matches self article in
      if bool_decide (matched_keywords ≠ ∅)
      then set_matched_keywords article (elements matched_keywords)
           :: filter_articles self rest
      else filter_articles self rest
  end.

(** [get_keyword_stats] *)
Definition get_keyword_stats (self : t) (articles : list Article)
  : gmap string nat :=
  foldl (fun (stats : gmap string nat) article =>
           foldl (fun (stats : gmap string nat) kw =>
                    match stats !! kw with
                    | Some n => <[ kw := S n ]> stats
                    | None => stats
                    end)
                 stats (Py.get (matched_keywords article) []))
        (list_to_map ((fun kw => (kw, 0%nat)) <$> keywords self))
        articles.

(** ** Whole-word occurrence, as the specification words it *)

Definition same_ignoring_case (a b : list ascii) : Prop :=
  lower <$> a = lower <$> b.

(** A word boundary between two adjacent pieces of a text. *)
Definition word_boundary (before after : list ascii) : Prop :=
  is_word (last before) ≠ is_word (head after).

(** The keyword occurs in the text, ignoring case, with a word boundary
    on both ends. *)
Definition occurs_whole_word (kw text : string) : Prop :=
  ∃ before seg after : list ascii,
    list_ascii_of_string text = before ++ seg ++ after
    ∧ same_ignoring_case seg (list_ascii_of_string kw)
    ∧ word_boundary before (seg ++ after)
    ∧ word_boundary (before ++ seg) after.




(** The text is made of ASCII characters (code points below 128). *)
Definition ascii_only (text : string) : Prop :=
  forallb (fun c => (nat_of_ascii c <? 128)%nat) (list_ascii_of_string text)
  = true.




(** The character just before a position: the last one of what was
    read, else the one before that. *)
Definition last_or (prev : option ascii) (l : list ascii) : option ascii :=
  match last l with
  | Some c => Some c
  | None => prev
  end.


End KeywordMatcher.

(* ================================================================== *)
(** * src/news_fetcher.py *)
(* ================================================================== *)

Module NewsFetcher.

(** ** Raw source records *)

(** An entry of a parsed feed. *)
Record RssEntry : Type := mkRssEntry {
  link : option string;
  entry_title : option string;
  summary : option string;
  entry_description : option string;
  entry_published : option string;
  updated : option string
}.

(** A hit of the search API. *)
Record ApiArticle : Type := mkApiArticle {
  api_url : option string;
  api_title : option string;
  api_description : option string;
  content : option string;
  publishedAt : option string;
  source_name : option string     (* [article['source']['name']] *)
}.

Record ApiResponse : Type := mkApiResponse {
  status : string;
  articles : list ApiArticle
}.

(** The collaborators of the fetchers. *)
Record World : Type := mkWorld {
  (** [datetime.now(pytz.UTC)] *)
  now : Z;
  (** [date_parser.parse], made timezone aware; [None] when it raises. *)
  parse_date : string -> option Z;
  (** [feedparser.parse(feed_url).entries] *)
  feed : string -> py_result (list RssEntry);
  (** [client.get_everything(q=query, from_param=...)] *)
  get_everything : string -> Z -> py_result ApiResponse
}.

(** ** [re.sub(r'<[^>]+>', '', description).strip()] *)

(** One left-to-right pass.  [pending] holds, reversed, what follows an
    opening [<] whose closing [>] has not been met yet. *)
Fixpoint strip_tags (pending : option (list ascii)) (text : list ascii)
  : list ascii :=
  match text with
  | [] =>
      match pending with
      | None => []
      | Some buf => "<"%char :: rev buf
      end
  | c :: rest =>
      match pending with
      | None =>
          if Ascii.eqb c "<" then strip_tags (Some []) rest
          else c :: strip_tags None rest
      | Some buf =>
          if Ascii.eqb c ">" then
            match buf with
            | [] => "<"%char :: ">"%char :: strip_tags None rest
            | _ :: _ => strip_tags None rest
            end
          else strip_tags (Some (c :: buf)) rest
      end
  end.

Definition is_space (c : ascii) : bool :=
  let n := nat_of_ascii c in
  ((9 <=? n) && (n <=? 13) || (28 <=? n) && (n <=? 32))%nat.

Fixpoint lstrip (text : list ascii) : list ascii :=
  match text with
  | [] => []
  | c :: rest => if is_space c then lstrip rest else text
  end.

Definition strip (text : list ascii) : list ascii :=
  rev (lstrip (rev (lstrip text))).

Definition strip_html (description : string) : string :=
  string_of_list_ascii
    (strip (strip_tags None (list_ascii_of_string description))).

(** ** Publication date, shared by both normalizers *)

Definition published_or_now (w : World) (pub_date_str : string) : Z :=
  let published :=
    if Py.truthy pub_date_str then parse_date w pub_date_str else None in
  match published with
  | Some t => t
  | None => now w
  end.

(** ** [RSSFetcher] *)

Definition _normalize_entry (w : World) (entry : RssEntry)
    (source_name : string) : option Article :=
  let url := Py.get (link entry) EmptyString in
  if negb (Py.truthy url) then None
  else
    let title := Py.get (entry_title entry) "Untitled" in
    let description :=
      Py.str_or (Py.get (summary entry) EmptyString)
                (Py.get (entry_description entry) EmptyString) in
    let description :=
      if Py.truthy description then strip_html description
      else description in
    let pub_date_str :=
      Py.str_or (Py.get (entry_published entry) EmptyString)
                (Py.get (updated entry) EmptyString) in
    Some {| url := Some url;
            title := Some title;
            description := Some description;
            published := published_or_now w pub_date_str;
            source := source_name;
            matched_keywords := None |}.

(** [fetch_feed]: a failure of the fetch is logged and the articles
    gathered so far (none) are returned. *)
Definition fetch_feed (w : World) (feed_url source_name : string)
    (hours_ago : Z) : list Article :=
  match feed w feed_url with
  | Raise _ => []
  | Ret entries =>
      let cutoff_time := now w - hours_ago * HOUR in
      foldl (fun articles entry =>
               match _normalize_entry w entry source_name with
               | Some article =>
                   if cutoff_time <=? published article
                   then articles ++ [article]
                   else articles
               | None => articles
               end)
            [] entries
  end.

(** ** [NewsAPIFetcher] *)

Definition _normalize_article (w : World) (article_data : ApiArticle)
  : option Article :=
  let url := Py.get (api_url article_data) EmptyString in
  if negb (Py.truthy url) then None
  else
    let title := Py.get (api_title article_data) "Untitled" in
    let description :=
      Py.str_or (Py.get (api_description article_data) EmptyString)
                (Py.get (content article_data) EmptyString) in
    let pub_date_str := Py.get (publishedAt article_data) EmptyString in
    Some {| url := Some url;
            title := Some title;
            description := Some description;
            published := published_or_now w pub_date_str;
            source := Py.get (source_name article_data) "NewsAPI";
            matched_keywords := None |}.

Definition dquote : string := String (ascii_of_nat 34) EmptyString.

(** [' OR '.join(f'"{kw}"' for kw in keywords)] *)
Definition build_query (keywords : list string) : string :=
  String.concat " OR "
    ((fun kw => (dquote ++ kw ++ dquote)%string) <$> keywords).

(** [fetch_articles]; [client] is [None] when no API key was given. *)
Definition fetch_articles (w : World) (client : option unit)
    (keywords : list string) (hours_ago : Z) : list Article :=
  match client with
  | None => []
  | Some _ =>
      let query := build_query keywords in
      let from_date := now w - hours_ago * HOUR in
      match get_everything w query from_date with
      | Raise _ => []
      | Ret response =>
          if String.eqb (status response) "ok" then
            foldl (fun articles article_data =>
                     match _normalize_article w article_data with
                     | Some article => articles ++ [article]
                     | None => articles
                     end)
                  [] (articles response)
          else []
      end
  end.

(** ** [NewsFetcher] *)

Record t : Type := mk {
  rss_feeds : list (string * string);   (* [dict.items()], in order *)
  newsapi_client : option unit
}.

Definition init (rss_feeds : list (string * string)) (newsapi_key : string)
  : t :=
  {| rss_feeds := rss_feeds;
     newsapi_client := if Py.truthy newsapi_key then Some tt else None |}.

(** The list the sources hand over, before deduplication: every RSS
    feed in the order of [rss_feeds], then the search API. *)
Definition collect (w : World) (self : t) (keywords : list string)
    (hours_ago : Z) : list Article :=
  let all_articles :=
    foldl (fun all_articles '(source_name, feed_url) =>
             all_articles ++ fetch_feed w feed_url source_name hours_ago)
          [] (rss_feeds self) in
  all_articles ++ fetch_articles w (newsapi_client self) keywords hours_ago.

(** The deduplication loop. *)
Fixpoint dedup_loop (seen_urls : gset string) (unique_articles : list Article)
    (todo : list Article) : py_result (list Article) :=
  match todo with
  | [] => Ret unique_articles
  | article :: rest =>
      url ← Py.subscript (url article);
      if bool_decide (url ∉ seen_urls)
      then dedup_loop (seen_urls ∪ {[ url ]}) (unique_articles ++ [article])
                      rest
      else dedup_loop seen_urls unique_articles rest
  end.

Definition fetch_all_articles (w : World) (self : t)
    (keywords : list string) (hours_ago : Z) : py_result (list Article) :=
  dedup_loop ∅ [] (collect w self keywords hours_ago).

(** What the loop appends to [unique_articles], as a function of what
    is left to do and of the locators seen so far. *)
Fixpoint first_seen (seen_urls : gset string) (todo : list Article)
  : list Article :=
  match todo with
  | [] => []
  | article :: rest =>
      match url article with
      | Some url =>
          if bool_decide (url ∉ seen_urls)
          then article :: first_seen (seen_urls ∪ {[ url ]}) rest
          else first_seen seen_urls rest
      | None => first_seen seen_urls rest
      end
  end.

(** ** Raw records, as the specification names them *)

(** What a source hands over, before normalization. *)
Inductive RawRecord : Type :=
| FeedEntry (source_name : string) (entry : RssEntry)
| ApiHit (article_data : ApiArticle).

(** The raw records in the order they are processed: the entries of
    every RSS feed, feeds in the order of [rss_feeds], then the hits of
    the search API.  A source whose fetch fails, and an API answer whose
    status is not ["ok"], hand over nothing. *)
Definition raw_records (w : World) (self : t) (keywords : list string)
    (hours_ago : Z) : list RawRecord :=
  (rss_feeds self
     ≫= fun '(source_name, feed_url) =>
           match feed w feed_url with
           | Ret entries => FeedEntry source_name <$> entries
           | Raise _ => []
           end)
  ++ match newsapi_client self with
     | None => []
     | Some _ =>
         match get_everything w (build_query keywords)
                 (now w - hours_ago * HOUR) with
         | Ret response =>
             if String.eqb (status response) "ok"
             then ApiHit <$> articles response
             else []
         | Raise _ => []
         end
     end.

(** The locator of a raw record; empty when it has none. *)
Definition raw_locator (r : RawRecord) : string :=
  match r with
  | FeedEntry _ entry => Py.get (link entry) EmptyString
  | ApiHit article_data => Py.get (api_url article_data) EmptyString
  end.

(** The normalized form of a raw record; none when it has no locator. *)
Definition normal_form (w : World) (r : RawRecord) : option Article :=
  match r with
  | FeedEntry source_name entry => _normalize_entry w entry source_name
  | ApiHit article_data => _normalize_article w article_data
  end.

(** The look-back window: it is applied to feed entries only. *)
Definition in_window (w : World) (hours_ago : Z) (r : RawRecord)
    (a : Article) : bool :=
  match r with
  | FeedEntry _ _ => now w - hours_ago * HOUR <=? published a
  | ApiHit _ => true
  end.

(** The article a raw record contributes to the combined list, if any:
    its normalized form, unless it has no locator or is a feed entry
    published before the window. *)
Definition retained (w : World) (hours_ago : Z) (r : RawRecord)
  : option Article :=
  match normal_form w r with
  | Some a => if in_window w hours_ago r a then Some a else None
  | None => None
  end.

(** ** First-seen position, as the specification words it *)

Definition has_url (u : string) (a : Article) : bool :=
  bool_decide (url a = Some u).

(** Index of the first article of [l] that carries the locator [u]. *)
Fixpoint first_index (u : string) (l : list Article) : option nat :=
  match l with
  | [] => None
  | a :: rest =>
      if has_url u a then Some 0%nat else S <$> first_index u rest
  end.

End NewsFetcher.

(* ================================================================== *)
(** * src/storage.py *)
(* ================================================================== *)

Module ArticleStorage.

(** A value of the persisted JSON object. *)
Record SentRecord : Type := mkSentRecord {
  sent_at : Z;
  rec_title : string;
  rec_url : string
}.

Abbreviation Store := (gmap string SentRecord).

(** What lies at [storage_path]. *)
Inductive file_state : Type :=
| Missing                  (* no file *)
| Corrupt                  (* not a JSON document *)
| Valid (data : Store).

(** How the disk answers an attempt to rewrite the file. *)
Inductive write_outcome : Type :=
| WriteOk
| OpenFails                (* [open] raises: the file is untouched *)
| WriteFails.              (* raises after truncation: a partial file *)

(** [open(path, 'r')] and [json.load]. *)
Definition read_json (f : file_state) : py_result Store :=
  match f with
  | Missing => Raise OSError
  | Corrupt => Raise JSONDecodeError
  | Valid data => Ret data
  end.

(** [open(path, 'w')] and [json.dump]. *)
Definition write_json (io : write_outcome) (data : Store)
  : St file_state unit :=
  fun f =>
    match io with
    | WriteOk => (Ret tt, Valid data)
    | OpenFails => (Raise OSError, f)
    | WriteFails => (Raise OSError, Corrupt)
    end.

(** [load_sent_articles] *)
Definition load_sent_articles (f : file_state) : py_result Store :=
  Py.try_except (read_json f) Py.any_Exception
    (fun e =>
       match e with
       | JSONDecodeError => Ret ∅
       | _ => Ret ∅
       end).

(** The store a file state stands for: what [load_sent_articles]
    returns on it. *)
Definition stored (f : file_state) : Store :=
  match f with
  | Valid data => data
  | Missing | Corrupt => ∅
  end.

(** [save_sent_articles]: the handler logs and re-raises. *)
Definition save_sent_articles (io : write_outcome) (data : Store)
  : St file_state unit :=
  fun f =>
    let '(r, f') := write_json io data f in
    (Py.try_except r Py.any_Exception (fun e => Raise e), f').

(** [ensure_storage_exists], which is all [__init__] does. *)
Definition ensure_storage_exists (io : write_outcome) : St file_state unit :=
  fun f =>
    match f with
    | Missing => save_sent_articles io ∅ f
    | _ => (Ret tt, f)
    end.

(** [is_sent] *)
Definition is_sent (article_url : string) (f : file_state)
  : py_result bool :=
  sent_articles ← load_sent_articles f;
  Ret (bool_decide (is_Some (sent_articles !! article_url))).

(** [mark_as_sent]; [now] is [datetime.now()]. *)
Definition mark_as_sent (now : Z) (io : write_outcome) (article : Article)
  : St file_state unit :=
  sent_articles ← reading load_sent_articles;
  let article_url := Py.get (url article) EmptyString in
  if negb (Py.truthy article_url) then mret tt
  else
    let sent_articles :=
      <[ article_url := {| sent_at := now;
                           rec_title := Py.get (title article) EmptyString;
                           rec_url := article_url |} ]> sent_articles in
    save_sent_articles io sent_articles.

(** The loop of [mark_multiple_as_sent]. *)
Definition mark_all (current_time : Z) (articles : list Article)
    (sent_articles : Store) : Store :=
  foldl (fun (sent_articles : Store) article =>
           let article_url := Py.get (url article) EmptyString in
           if Py.truthy article_url
           then <[ article_url :=
                     {| sent_at := current_time;
                        rec_title := Py.get (title article) EmptyString;
                        rec_url := article_url |} ]> sent_articles
           else sent_articles)
        sent_articles articles.

(** [mark_multiple_as_sent] *)
Definition mark_multiple_as_sent (now : Z) (io : write_outcome)
    (articles : list Article) : St file_state unit :=
  sent_articles ← reading load_sent_articles;
  let current_time := now in
  save_sent_articles io (mark_all current_time articles sent_articles).

(** The records [cleanup_old_entries] keeps. *)
Definition fresh (cutoff_date : Z) (entry : string * SentRecord) : Prop :=
  cutoff_date < sent_at entry.2.

Global Instance fresh_dec cutoff_date entry
  : Decision (fresh cutoff_date entry) :=
  decide (cutoff_date < sent_at entry.2).

(** The records that are as old as the cutoff or older. *)
Definition expired (cutoff_date : Z) (entry : string * SentRecord) : Prop :=
  sent_at entry.2 <= cutoff_date.

Global Instance expired_dec cutoff_date entry
  : Decision (expired cutoff_date entry) :=
  decide (sent_at entry.2 <= cutoff_date).

(** [cleanup_old_entries] *)
Definition cleanup_old_entries (now : Z) (io : write_outcome) (days : Z)
  : St file_state Z :=
  sent_articles ← reading load_sent_articles;
  let cutoff_date := now - days * DAY in
  let original_count := Z.of_nat (size sent_articles) in
  let sent_articles : Store := filter (fresh cutoff_date) sent_articles in
  let removed_count := original_count - Z.of_nat (size sent_articles) in
  if 0 <? removed_count
  then _ ← save_sent_articles io sent_articles; mret removed_count
  else mret removed_count.

(** [min] and [max] of a list raise [ValueError] on the empty list. *)
Definition py_min (l : list Z) : py_result Z :=
  match l with
  | [] => Raise ValueError
  | x :: l' => Ret (foldl Z.min x l')
  end.

Definition py_max (l : list Z) : py_result Z :=
  match l with
  | [] => Raise ValueError
  | x :: l' => Ret (foldl Z.max x l')
  end.

(** The dictionary [get_stats] returns; [None] is Python's [None]. *)
Record Stats : Type := mkStats {
  total : option Z;
  oldest : option Z;
  newest : option Z
}.

(** [get_stats] *)
Definition get_stats (f : file_state) : py_result Stats :=
  sent_articles ← load_sent_articles f;
  if bool_decide (sent_articles = ∅) then
    Ret {| total := Some 0; oldest := None; newest := None |}
  else
    let dates := (fun entry => sent_at entry.2) <$> map_to_list sent_articles in
    lo ← py_min dates;
    hi ← py_max dates;
    Ret {| total := Some (Z.of_nat (size sent_articles));
           oldest := Some lo;
           newest := Some hi |}.

(** ** The operations that mutate the store, for stating invariants *)

Inductive operation : Type :=
| MarkAsSent (now : Z) (io : write_outcome) (article : Article)
| MarkMultipleAsSent (now : Z) (io : write_outcome) (articles : list Article)
| CleanupOldEntries (now : Z) (io : write_outcome) (days : Z).

Definition perform (op : operation) (f : file_state) : file_state :=
  match op with
  | MarkAsSent now io article => (mark_as_sent now io article f).2
  | MarkMultipleAsSent now io articles =>
      (mark_multiple_as_sent now io articles f).2
  | CleanupOldEntries now io days => (cleanup_old_entries now io days f).2
  end.

Definition perform_all (ops : list operation) (f : file_state)
  : file_state :=
  foldl (fun f op => perform op f) f ops.

(** Every key holds a record whose [url] field is that key. *)
Definition keyed_by_url (data : Store) : Prop :=
  ∀ k r, data !! k = Some r → rec_url r = k.

End ArticleStorage.

(* ================================================================== *)
(** * src/telegram_notifier.py *)
(* ================================================================== *)

Module TelegramNotifier.

(** A message, kept as the data its format string interpolates: for a
    digest the clock reading of the header and, for each article shown,
    its rank, its escaped title and its locator; for an alert the escaped
    error text. *)
Inductive Message : Type :=
| Digest (time_str : string) (items : list (nat * string * string))
| Alert (escaped_error : string).

(** What the transport and the event loop are asked to do. *)
Inductive event : Type :=
| SendMessage (attempt : Z) (message : Message)
| Sleep (seconds : Z).

(** The chat API: how it answers the call of attempt number [attempt]. *)
Definition Transport : Type := Z -> py_result unit.

Record t : Type := mk {
  bot : option string;
  chat_id : option string
}.

(** [__init__] *)
Definition init (bot_token chat_id : string) : t :=
  if negb (Py.truthy bot_token) || negb (Py.truthy chat_id)
  then {| bot := None; chat_id := None |}
  else {| bot := Some bot_token; chat_id := Some chat_id |}.

(** [str.replace] of one character. *)
Fixpoint replace (c : ascii) (by_ : string) (text : string) : string :=
  match text with
  | EmptyString => EmptyString
  | String x rest =>
      if Ascii.eqb x c then (by_ ++ replace c by_ rest)%string
      else String x (replace c by_ rest)
  end.

(** [_escape_html] *)
Definition _escape_html (text : string) : string :=
  replace ">" "&gt;" (replace "<" "&lt;" (replace "&" "&amp;" text)).

(** [format_digest_message]; [clock] is the header's [strftime]. *)
Definition format_digest_message (clock : string) (articles : list Article)
    (max_articles : Z) : Message :=
  let time_str := clock in
  let articles_to_show := Py.slice_to articles max_articles in
  Digest time_str
    (imap (fun idx article =>
             let title := Py.get (title article) "Untitled" in
             let url := Py.get (url article) EmptyString in
             (S idx, _escape_html title, url))
          articles_to_show).

(** The retry loop of [_send_message_async]: [todo] iterations of
    [for attempt in range(retry_count)] are left.  Returns the result
    and what was asked of the transport and the event loop. *)
Fixpoint send_loop (transport : Transport) (message : Message)
    (retry_count : Z) (todo : nat) (attempt : Z)
  : py_result bool * list event :=
  match todo with
  | O => (Ret false, [])
  | S todo' =>
      let sent := SendMessage attempt message in
      match transport attempt with
      | Ret _ => (Ret true, [sent])
      | Raise TelegramError =>
          if attempt <? retry_count - 1 then
            let wait_time := 2 ^ attempt in
            let '(r, evs) :=
              send_loop transport message retry_count todo' (attempt + 1) in
            (r, sent :: Sleep wait_time :: evs)
          else (Ret false, [sent])
      | Raise _ => (Ret false, [sent])
      end
  end.

(** [self.bot and self.chat_id]: a bot was built and the chat id is a
    non-empty string. *)
Definition configured (self : t) : bool :=
  match bot self, chat_id self with
  | Some _, Some chat => Py.truthy chat
  | _, _ => false
  end.

(** [_send_message_async] *)
Definition _send_message_async (self : t) (transport : Transport)
    (message : Message) (retry_count : Z) : py_result bool * list event :=
  if negb (configured self) then (Ret false, [])
  else send_loop transport message retry_count (Z.to_nat retry_count) 0.

(** [send_digest] *)
Definition send_digest (self : t) (transport : Transport) (clock : string)
    (articles : list Article) (max_articles : Z)
  : py_result bool * list event :=
  match articles with
  | [] => (Ret false, [])
  | _ :: _ =>
      let message := format_digest_message clock articles max_articles in
      let '(r, evs) := _send_message_async self transport message 3 in
      (Py.try_except r Py.any_Exception (fun _ => Ret false), evs)
  end.

(** [send_error_notification] *)
Definition send_error_notification (self : t) (transport : Transport)
    (error_message : string) : py_result bool * list event :=
  if negb (configured self) then (Ret false, [])
  else
    let message := Alert (_escape_html error_message) in
    let '(r, evs) := _send_message_async self transport message 1 in
    (Py.try_except r Py.any_Exception (fun _ => Ret false), evs).

(** What a delivery that ends with attempt number [last_attempt] asks
    for: every attempt before it is followed by a pause of two to the
    power of its number, in seconds. *)
Definition retry_trace (message : Message) (last_attempt : nat) : list event :=
  (seq 0 last_attempt
     ≫= fun i => [ SendMessage (Z.of_nat i) message; Sleep (2 ^ Z.of_nat i) ])
  ++ [ SendMessage (Z.of_nat last_attempt) message ].

(** Whether a call of the transport went through. *)
Definition delivered (answer : py_result unit) : bool :=
  match answer with
  | Ret _ => true
  | Raise _ => false
  end.

(** [retry_trace], from attempt number [first] on. *)
Definition retry_trace_from (message : Message) (first more : nat)
  : list event :=
  (seq first more
     ≫= fun i => [ SendMessage (Z.of_nat i) message; Sleep (2 ^ Z.of_nat i) ])
  ++ [ SendMessage (Z.of_nat (first + more)) message ].

(** The attempts among the events. *)
Definition is_send (ev : event) : bool :=
  match ev with
  | SendMessage _ _ => true
  | Sleep _ => false
  end.

Definition attempts (evs : list event) : list event :=
  List.filter is_send evs.

(** The delays among the events, in order. *)
Definition delays (evs : list event) : list Z :=
  omap (fun ev => match ev with
                  | Sleep s => Some s
                  | SendMessage _ _ => None
                  end) evs.

End TelegramNotifier.

(* ================================================================== *)
(** * main.py *)
(* ================================================================== *)

Module Main.

Import ArticleStorage.

(** ** Step 5: [new_articles.sort(key=published, reverse=True)] *)

(** [list.sort] is stable, and with [reverse=True] equal keys still keep
    their original order.  The result of a stable sort is determined by
    its argument; it is computed here by insertion. *)
Fixpoint insert_newest_first (a : Article) (sorted : list Article)
  : list Article :=
  match sorted with
  | [] => [a]
  | b :: rest =>
      if published b <=? published a then a :: sorted
      else b :: insert_newest_first a rest
  end.

Definition sort_newest_first (l : list Article) : list Article :=
  foldr insert_newest_first [] l.

(** Newest first. *)
Definition newer_or_equal (a b : Article) : Prop := published b <= published a.


(** Steps 5 and 6. *)
Definition sort_and_cap (cap : Z) (new_articles : list Article)
  : list Article :=
  Py.slice_to (sort_newest_first new_articles) cap.

(** ** The process *)

(** Everything outside the program that a run depends on. *)
Record Env : Type := mkEnv {
  world : NewsFetcher.World;
  NEWSAPI_KEY : string;
  TELEGRAM_BOT_TOKEN : string;
  TELEGRAM_CHAT_ID : string;
  clock : string;                         (* header time of the digest *)
  digest_transport : TelegramNotifier.Transport;
  alert_transport : TelegramNotifier.Transport;
  init_io : write_outcome;                (* disk, at [ArticleStorage(...)] *)
  mark_io : write_outcome;                (* disk, at step 8 *)
  cleanup_io : write_outcome;             (* disk, at step 9 *)
  mark_now : Z;                           (* clock, at step 8 *)
  cleanup_now : Z                         (* clock, at step 9 *)
}.

(** The log lines that tell how the run went. *)
Inductive log_line : Type :=
| Tracked (articles : list Article)   (* "Successfully sent and tracked" *)
| NotMarked                           (* "articles NOT marked as sent" *)
| Completed.                          (* "check completed successfully" *)

Record Process : Type := mkProcess {
  file : file_state;
  sent : list TelegramNotifier.event;
  log : list log_line
}.

Definition on_file {A} (m : St file_state A) : St Process A :=
  fun p =>
    let '(r, f) := m (file p) in
    (r, {| file := f; sent := sent p; log := log p |}).

Definition reading_file {A} (m : file_state -> py_result A) : St Process A :=
  fun p => (m (file p), p).

Definition notifying {A} (m : py_result A * list TelegramNotifier.event)
  : St Process A :=
  fun p => (m.1, {| file := file p; sent := sent p ++ m.2; log := log p |}).

Definition logging (line : log_line) : St Process unit :=
  fun p => (Ret tt, {| file := file p; sent := sent p;
                       log := log p ++ [line] |}).

Definition pure {A} (r : py_result A) : St Process A := fun p => (r, p).

(** Step 4: the comprehension
    [[a for a in matched_articles if not storage.is_sent(a['url'])]]. *)
Fixpoint not_yet_sent (matched_articles : list Article) (f : file_state)
  : py_result (list Article) :=
  match matched_articles with
  | [] => Ret []
  | article :: rest =>
      url ← Py.subscript (url article);
      already ← is_sent url f;
      new_articles ← not_yet_sent rest f;
      Ret (if (already : bool) then new_articles
           else article :: new_articles)
  end.

(** The loop that logs the digest: it reads [article['title']]. *)
Fixpoint log_details (articles_to_send : list Article) : py_result unit :=
  match articles_to_send with
  | [] => Ret tt
  | article :: rest =>
      _ ← Py.subscript (title article);
      log_details rest
  end.

(** Steps 2 to 6: the batch the run will try to deliver; [None] when
    the run returns early. *)
Definition digest_batch (env : Env) (f : file_state)
  : py_result (option (list Article)) :=
  let fetcher := NewsFetcher.init Config.RSS_FEEDS (NEWSAPI_KEY env) in
  let matcher := KeywordMatcher.init Config.KEYWORDS in
  all_articles ← NewsFetcher.fetch_all_articles (world env) fetcher
                   Config.KEYWORDS Config.FETCH_WINDOW_HOURS;
  match all_articles with
  | [] => Ret None
  | _ :: _ =>
      match KeywordMatcher.filter_articles matcher all_articles with
      | [] => Ret None
      | (_ :: _) as matched_articles =>
          new_articles ← not_yet_sent matched_articles f;
          match new_articles with
          | [] => Ret None
          | _ :: _ =>
              Ret (Some (sort_and_cap Config.MAX_ARTICLES_IN_DIGEST
                           new_articles))
          end
      end
  end.

(** The batch handed to [send_digest], when the run gets that far. *)
Definition attempted_batch (env : Env) (f : file_state)
  : option (list Article) :=
  match ensure_storage_exists (init_io env) f with
  | (Ret _, f1) =>
      match digest_batch env f1 with
      | Ret (Some articles_to_send) =>
          match log_details articles_to_send with
          | Ret _ => Some articles_to_send
          | Raise _ => None
          end
      | _ => None
      end
  | (Raise _, _) => None
  end.

(** What [send_digest] answers for a batch. *)
Definition delivery (env : Env) (articles_to_send : list Article)
  : py_result bool :=
  (TelegramNotifier.send_digest
     (TelegramNotifier.init (TELEGRAM_BOT_TOKEN env) (TELEGRAM_CHAT_ID env))
     (digest_transport env) (clock env) articles_to_send
     Config.MAX_ARTICLES_IN_DIGEST).1.

(** Steps 7 to 9. *)
Definition deliver_and_commit (env : Env) (articles_to_send : list Article)
  : St Process unit :=
  let notifier :=
    TelegramNotifier.init (TELEGRAM_BOT_TOKEN env) (TELEGRAM_CHAT_ID env) in
  _ ← pure (log_details articles_to_send);
  success ← notifying
              (TelegramNotifier.send_digest notifier
                 (digest_transport env) (clock env) articles_to_send
                 Config.MAX_ARTICLES_IN_DIGEST);
  _ ← (if (success : bool) then
         _ ← on_file (mark_multiple_as_sent (mark_now env) (mark_io env)
                        articles_to_send);
         logging (Tracked articles_to_send)
       else logging NotMarked);
  removed ← on_file (cleanup_old_entries (cleanup_now env)
                       (cleanup_io env) Config.CLEANUP_DAYS);
  logging Completed.

(** The body of the [try] in [main]. *)
Definition run (env : Env) : St Process unit :=
  _ ← on_file (ensure_storage_exists (init_io env));
  stats ← reading_file get_stats;
  batch ← reading_file (digest_batch env);
  match batch with
  | None => mret tt
  | Some articles_to_send => deliver_and_commit env articles_to_send
  end.

(** [main]: the exit status and the final state of the process.  An
    exception that escapes [run] is logged, an alert is attempted, and
    the process exits with status 1. *)
Definition main (env : Env) (f : file_state) : Z * Process :=
  let start := {| file := f; sent := []; log := [] |} in
  match run env start with
  | (Ret _, p) => (0, p)
  | (Raise _, p) =>
      let notifier :=
        TelegramNotifier.init (TELEGRAM_BOT_TOKEN env)
          (TELEGRAM_CHAT_ID env) in
      let '(_, evs) :=
        TelegramNotifier.send_error_notification notifier
          (alert_transport env) "Critical error" in
      (1, {| file := file p; sent := sent p ++ evs; log := log p |})
  end.

End Main.

(* ================================================================== *)
(** * Concrete inputs *)
(* ================================================================== *)

Module Examples.

Import NewsFetcher.

Definition entry (link title : string) : RssEntry :=
  {| link := Some link; entry_title := Some title; summary := None;
     entry_description := None; entry_published := None; updated := None |}.

Definition hit (url title : string) : ApiArticle :=
  {| api_url := Some url; api_title := Some title; api_description := None;
     content := None; publishedAt := None; source_name := None |}.

(** The first feed carries the same locator twice, the second feed and
    the search API carry it once more; the third feed times out. *)
Definition world : World :=
  {| now := 1000 * DAY;
     parse_date := fun _ => None;
     feed := fun feed_url =>
       if String.eqb feed_url "https://venturebeat.com/feed/" then
         Ret [ entry "https://example.org/a" "OpenAI ships";
               entry "https://example.org/a" "OpenAI ships (updated)" ]
       else if String.eqb feed_url "https://www.technologyreview.com/feed/"
       then
         Ret [ entry "https://example.org/b" "Weather";
               entry "https://example.org/a" "OpenAI ships, again" ]
       else Raise Timeout;
     get_everything := fun _ _ =>
       Ret {| status := "ok";
              articles := [ hit "https://example.org/c" "Anthropic news";
                            hit "https://example.org/a" "OpenAI (api)" ] |}
  |}.

Definition fetcher : NewsFetcher.t :=
  NewsFetcher.init Config.RSS_FEEDS "api-key".

(** Two entries of the first feed carry the same locator and a date ten
    days before the fetch; the other sources time out. *)
Definition stale_entry (title : string) : RssEntry :=
  {| link := Some "https://example.org/old"; entry_title := Some title;
     summary := None; entry_description := None;
     entry_published := Some "Sun, 17 Sep 1972 00:00:00 GMT";
     updated := None |}.

Definition twice_stale_world : World :=
  {| now := 1000 * DAY;
     parse_date := fun _ => Some (990 * DAY);
     feed := fun feed_url =>
       if String.eqb feed_url "https://venturebeat.com/feed/" then
         Ret [ stale_entry "OpenAI, ten days ago";
               stale_entry "OpenAI, ten days ago (again)" ]
       else Raise Timeout;
     get_everything := fun _ _ => Raise Timeout |}.

Definition article (url title : string) (published : Z) : Article :=
  {| url := Some url; title := Some title; description := Some EmptyString;
     published := published; source := "VentureBeat";
     matched_keywords := None |}.

(** A process whose clock stands at day 1000 and whose disk works but
    for the rewrite of step 8, which answers [mark_io]. *)
Definition env (digest_transport : TelegramNotifier.Transport)
    (mark_io : ArticleStorage.write_outcome) : Main.Env :=
  {| Main.world := world;
     Main.NEWSAPI_KEY := "api-key";
     Main.TELEGRAM_BOT_TOKEN := "token";
     Main.TELEGRAM_CHAT_ID := "chat";
     Main.clock := "08:00 AM";
     Main.digest_transport := digest_transport;
     Main.alert_transport := fun _ => Ret tt;
     Main.init_io := ArticleStorage.WriteOk;
     Main.mark_io := mark_io;
     Main.cleanup_io := ArticleStorage.WriteOk;
     Main.mark_now := 1000 * DAY;
     Main.cleanup_now := 1000 * DAY |}.

(** A chat API that is down, and one that works. *)
Definition transport_down : TelegramNotifier.Transport :=
  fun _ => Raise TelegramError.

Definition transport_up : TelegramNotifier.Transport :=
  fun _ => Ret tt.

(** A store that remembers one notification sent 31 days before day
    1000. *)
Definition old_file : ArticleStorage.file_state :=
  ArticleStorage.Valid
    {[ "https://example.org/old" :=
         {| ArticleStorage.sent_at := 969 * DAY;
            ArticleStorage.rec_title := "OpenAI, a month ago";
            ArticleStorage.rec_url := "https://example.org/old" |} ]}.

(** The two articles of [world] that match a keyword, as annotated. *)
Definition batch : list Article :=
  [ {| url := Some "https://example.org/a";
       title := Some "OpenAI ships";
       description := Some EmptyString;
       published := 1000 * DAY;
       source := "VentureBeat";
       matched_keywords := Some ["OpenAI"] |};
    {| url := Some "https://example.org/c";
       title := Some "Anthropic news";
       description := Some EmptyString;
       published := 1000 * DAY;
       source := "NewsAPI";
       matched_keywords := Some ["Anthropic"] |} ].

End Examples.

(* ================================================================== *)
(** * Notions used to state further properties *)
(* ================================================================== *)

Module Notions.

(** How many times [kw] is listed in the [matched_keywords] of the
    articles. *)
Definition mentions (kw : string) (articles : list Article) : nat :=
  sum_list
    ((fun a =>
        length (filter (fun k => k = kw) (Py.get (matched_keywords a) [])))
       <$> articles).

(** The text in lower case. *)
Definition lowercase (text : string) : string :=
  string_of_list_ascii (KeywordMatcher.lower <$> list_ascii_of_string text).

(** The text holds a letter, a digit or an underscore. *)
Definition has_word_char (text : string) : Prop :=
  ∃ c, c ∈ list_ascii_of_string text ∧ KeywordMatcher.is_word_char c = true.

(** A world in which every date string is read as instant 0, a thousand
    days before the fetch: the feeds and the search API each give one old
    record. *)
Definition stale_hit : NewsFetcher.ApiArticle :=
  {| NewsFetcher.api_url := Some "https://example.org/api";
     NewsFetcher.api_title := Some "OpenAI, long ago";
     NewsFetcher.api_description := None;
     NewsFetcher.content := None;
     NewsFetcher.publishedAt := Some "2020-01-01T00:00:00Z";
     NewsFetcher.source_name := None |}.

Definition stale_world : NewsFetcher.World :=
  {| NewsFetcher.now := 1000 * DAY;
     NewsFetcher.parse_date := fun _ => Some 0;
     NewsFetcher.feed := fun _ =>
       Ret [ {| NewsFetcher.link := Some "https://example.org/rss";
                NewsFetcher.entry_title := Some "OpenAI, long ago";
                NewsFetcher.summary := None;
                NewsFetcher.entry_description := None;
                NewsFetcher.entry_published := Some "2020-01-01T00:00:00Z";
                NewsFetcher.updated := None |} ];
     NewsFetcher.get_everything := fun _ _ =>
       Ret {| NewsFetcher.status := "ok";
              NewsFetcher.articles := [ stale_hit ] |} |}.

(** What [_escape_html] makes of one character. *)
Definition escape_char (c : ascii) : string :=
  if Ascii.eqb c "&" then "&amp;"
  else if Ascii.eqb c "<" then "&lt;"
  else if Ascii.eqb c ">" then "&gt;"
  else String c EmptyString.

(** The text with each character replaced by its escape, in one pass. *)
Fixpoint escape_each (text : string) : string :=
  match text with
  | EmptyString => EmptyString
  | String c rest => (escape_char c ++ escape_each rest)%string
  end.

(** The attempts among the events that the transport accepted. *)
Definition accepted (transport : TelegramNotifier.Transport)
    (evs : list TelegramNotifier.event) : list TelegramNotifier.event :=
  List.filter
    (fun ev => match ev with
               | TelegramNotifier.SendMessage attempt _ =>
                   TelegramNotifier.delivered (transport attempt)
               | TelegramNotifier.Sleep _ => false
               end) evs.

(** The seconds spent waiting. *)
Definition total_delay (evs : list TelegramNotifier.event) : Z :=
  foldr Z.add 0 (TelegramNotifier.delays evs).

(** An article as the normalizers make it: it has a non-empty locator
    and a title. *)
Definition well_formed (a : Article) : Prop :=
  (∃ u, url a = Some u ∧ u ≠ EmptyString) ∧ is_Some (title a).

(** The tracker holds a record under the article's locator. *)
Definition already_sent (f : ArticleStorage.file_state) (a : Article) : Prop :=
  ∃ u, url a = Some u ∧ ArticleStorage.is_sent u f = Ret true.

(** A later look at the sources, eight hours after [Examples.world]: the
    first feed still carries the article under /a and a new one, the
    other sources time out. *)
Definition next_world : NewsFetcher.World :=
  {| NewsFetcher.now := 1000 * DAY + 8 * HOUR;
     NewsFetcher.parse_date := fun _ => None;
     NewsFetcher.feed := fun feed_url =>
       if String.eqb feed_url "https://venturebeat.com/feed/" then
         Ret [ Examples.entry "https://example.org/a" "OpenAI ships";
               Examples.entry "https://example.org/d" "Anthropic grows" ]
       else Raise Timeout;
     NewsFetcher.get_everything := fun _ _ => Raise Timeout |}.

Definition next_env : Main.Env :=
  {| Main.world := next_world;
     Main.NEWSAPI_KEY := "api-key";
     Main.TELEGRAM_BOT_TOKEN := "token";
     Main.TELEGRAM_CHAT_ID := "chat";
     Main.clock := "04:00 PM";
     Main.digest_transport := Examples.transport_up;
     Main.alert_transport := Examples.transport_up;
     Main.init_io := ArticleStorage.WriteOk;
     Main.mark_io := ArticleStorage.WriteOk;
     Main.cleanup_io := ArticleStorage.WriteOk;
     Main.mark_now := 1000 * DAY + 8 * HOUR;
     Main.cleanup_now := 1000 * DAY + 8 * HOUR |}.

Definition next_batch : list Article :=
  [ {| url := Some "https://example.org/d";
       title := Some "Anthropic grows";
       description := Some EmptyString;
       published := 1000 * DAY + 8 * HOUR;
       source := "VentureBeat";
       matched_keywords := Some ["Anthropic"] |} ].

(** A store that remembers the two matching articles of
    [Examples.world]. *)
Definition known_file : ArticleStorage.file_state :=
  ArticleStorage.Valid
    (<[ "https://example.org/a" :=
          {| ArticleStorage.sent_at := 1000 * DAY;
             ArticleStorage.rec_title := "OpenAI ships";
             ArticleStorage.rec_url := "https://example.org/a" |} ]>
       {[ "https://example.org/c" :=
            {| ArticleStorage.sent_at := 1000 * DAY;
               ArticleStorage.rec_title := "Anthropic news";
               ArticleStorage.rec_url := "https://example.org/c" |} ]}).

End Notions.

(* ================================================================== *)
(** * Properties of the keyword matcher *)
(* ================================================================== *)

Section KeywordMatcherFacts.

Import KeywordMatcher.

Local Lemma last_or_cons prev c l : last_or prev (c :: l) = last_or (Some c) l.
Proof.
  unfold last_or. destruct l as [|d l]; [done|].
  change (last (c :: d :: l)) with (last (d :: l)).
  destruct (last (d :: l)) eqn:E; [done|].
  by apply last_None in E.
Qed.

Local Lemma last_or_None l : last_or None l = last l.
Proof. unfold last_or. by destruct (last l). Qed.

Lemma at_boundary_spec p n :
  at_boundary p n = true ↔ is_word p ≠ is_word n.
Proof. unfold at_boundary. destruct (is_word p), (is_word n); naive_solver. Qed.

Lemma match_literal_spec kw text prev last_c rest :
  match_literal kw text prev = Some (last_c, rest)
  ↔ ∃ seg, text = seg ++ rest
           ∧ same_ignoring_case seg kw
           ∧ last_c = last_or prev seg.
Proof.
  unfold same_ignoring_case.
  revert text prev. induction kw as [|k kw IH]; intros text prev; simpl.
  - split.
    + intros [= <- <-]. by exists [].
    + intros (seg & -> & Hci & ->).
      apply fmap_nil_inv in Hci as ->. done.
  - destruct text as [|c text].
    + split; [done|]. intros (seg & Htext & Hci & _).
      symmetry in Htext. apply app_eq_nil in Htext as [-> _]. done.
    + destruct (Ascii.eqb (lower k) (lower c)) eqn:E.
      * apply Ascii.eqb_eq in E. rewrite IH. split.
        -- intros (seg & -> & Hci & ->). exists (c :: seg).
           rewrite last_or_cons. csimpl. by rewrite E, Hci.
        -- intros (seg & Htext & Hci & ->).
           destruct seg as [|c' seg]; [done|].
           injection Htext as <- ->. injection Hci as _ Hci.
           exists seg. by rewrite last_or_cons.
      * apply Ascii.eqb_neq in E. split; [done|].
        intros (seg & Htext & Hci & _).
        destruct seg as [|c' seg]; [done|].
        injection Htext as <- _. injection Hci as Hc _. congruence.
Qed.

Lemma match_at_spec kw prev text :
  match_at kw prev text = true
  ↔ ∃ seg after,
      text = seg ++ after
      ∧ same_ignoring_case seg kw
      ∧ is_word prev ≠ is_word (head (seg ++ after))
      ∧ is_word (last_or prev seg) ≠ is_word (head after).
Proof.
  unfold match_at. rewrite andb_true_iff, at_boundary_spec. split.
  - intros [Hb Hm].
    destruct (match_literal kw text prev) as [[last_c rest]|] eqn:E; [|done].
    apply match_literal_spec in E as (seg & -> & Hci & ->).
    apply at_boundary_spec in Hm. by exists seg, rest.
  - intros (seg & after & -> & Hci & Hb1 & Hb2). split; [done|].
    assert (match_literal kw (seg ++ after) prev
            = Some (last_or prev seg, after)) as ->.
    { apply match_literal_spec. by exists seg. }
    by apply at_boundary_spec.
Qed.

Lemma search_from_spec kw prev text :
  search_from kw prev text = true
  ↔ ∃ before seg after,
      text = before ++ seg ++ after
      ∧ same_ignoring_case seg kw
      ∧ is_word (last_or prev before) ≠ is_word (head (seg ++ after))
      ∧ is_word (last_or prev (before ++ seg)) ≠ is_word (head after).
Proof.
  revert prev. induction text as [|c text IH]; intros prev.
  - simpl. rewrite orb_false_r, match_at_spec. split.
    + intros (seg & after & ? & ? & ? & ?). by exists [], seg, after.
    + intros (before & seg & after & Htext & ? & ? & ?).
      symmetry in Htext. apply app_eq_nil in Htext as [-> Htext].
      apply app_eq_nil in Htext as [-> ->]. by exists [], [].
  - simpl. rewrite orb_true_iff, match_at_spec, IH. split.
    + intros [(seg & after & ? & ? & ? & ?)
             |(before & seg & after & -> & ? & ? & ?)].
      * by exists [], seg, after.
      * exists (c :: before), seg, after.
        by rewrite <- !app_comm_cons, !last_or_cons.
    + intros ([|c' before] & seg & after & Htext & ? & Hb1 & Hb2).
      * left. exists seg, after. by rewrite Htext.
      * right. rewrite <- !app_comm_cons in *. injection Htext as <- ->.
        rewrite !last_or_cons in *. by exists before, seg, after.
Qed.

(** The pattern finds a match exactly where the keyword occurs as a
    whole word. *)
Lemma search_spec kw text :
  search kw text = true ↔ occurs_whole_word kw text.
Proof.
  unfold search, occurs_whole_word, word_boundary.
  rewrite search_from_spec.
  by setoid_rewrite last_or_None.
Qed.

Lemma find_matches_fold text (l : list string) (acc : gset string) k :
  k ∈ foldl (fun (matched_keywords : gset string) '(pattern, keyword) =>
               if search pattern text
               then matched_keywords ∪ {[ keyword ]}
               else matched_keywords)
            acc (zip l l)
  ↔ k ∈ acc ∨ (k ∈ l ∧ search k text = true).
Proof.
  revert acc. induction l as [|x l IH]; intros acc; simpl.
  - set_solver.
  - rewrite IH. destruct (search x text) eqn:E.
    + set_solver.
    + split; [set_solver|]. intros [?|[Hk ?]]; [by left|].
      apply elem_of_cons in Hk as [->|?]; [congruence|by right].
Qed.

(** [find_matches] returns the configured keywords that occur. *)
Lemma find_matches_spec kws a k :
  k ∈ find_matches (init kws) a
  ↔ k ∈ kws ∧ occurs_whole_word k (text_of a).
Proof.
  unfold find_matches, init; simpl. rewrite list_fmap_id.
  rewrite find_matches_fold, search_spec. set_solver.
Qed.



Lemma is_word_char_lower c : is_word_char (lower c) = is_word_char c.
Proof. by destruct c as [[] [] [] [] [] [] [] []]. Qed.

Lemma same_ignoring_case_edges seg kw :
  same_ignoring_case seg kw →
  is_word (head seg) = is_word (head kw)
  ∧ is_word (last seg) = is_word (last kw).
Proof.
  unfold same_ignoring_case. intros Hci.
  assert (∀ l, is_word (head (lower <$> l)) = is_word (head l)) as Hhead.
  { intros [|c l]; [done|]. apply is_word_char_lower. }
  assert (∀ l, is_word (last (lower <$> l)) = is_word (last l)) as Hlast.
  { intros l. rewrite fmap_last. destruct (last l); [|done].
    apply is_word_char_lower. }
  split.
  - by rewrite <- (Hhead seg), <- (Hhead kw), Hci.
  - by rewrite <- (Hlast seg), <- (Hlast kw), Hci.
Qed.






End KeywordMatcherFacts.




(** The matcher on two articles: one carries the keyword as a word, in
    another case; the other only inside a longer word. *)
Example filter_articles_example :
  KeywordMatcher.filter_articles (KeywordMatcher.init ["AI"; "agent SDK"])
    [ Examples.article "https://example.org/1" "ai agents are here" 1;
      Examples.article "https://example.org/2" "MAIN event" 2 ]
  = [ set_matched_keywords
        (Examples.article "https://example.org/1" "ai agents are here" 1)
        ["AI"] ].
Proof. by vm_compute. Qed.

(* ================================================================== *)
(** * Properties of the aggregator *)
(* ================================================================== *)

Section NewsFetcherFacts.

Import NewsFetcher.

(** A property of what a loop accumulates is proved for every value
    of the accumulator. *)
Local Ltac generalize_accumulator :=
  match goal with
  | |- Forall ?P (foldl ?f [] ?l) =>
      let H := fresh in
      enough (∀ acc, Forall P acc → Forall P (foldl f acc l)) as H
        by (apply H; constructor)
  end.

Lemma _normalize_entry_url w entry name a :
  _normalize_entry w entry name = Some a → is_Some (url a).
Proof.
  unfold _normalize_entry.
  destruct (negb (Py.truthy (Py.get (link entry) EmptyString))); [done|].
  intros [= <-]. by eexists.
Qed.

Lemma _normalize_article_url w data a :
  _normalize_article w data = Some a → is_Some (url a).
Proof.
  unfold _normalize_article.
  destruct (negb (Py.truthy (Py.get (api_url data) EmptyString))); [done|].
  intros [= <-]. by eexists.
Qed.

Lemma fetch_feed_url w feed_url name hours :
  Forall (fun a => is_Some (url a)) (fetch_feed w feed_url name hours).
Proof.
  unfold fetch_feed.
  destruct (feed w feed_url) as [entries|]; [|by constructor].
  generalize_accumulator.
  induction entries as [|e entries IH]; intros acc Hacc; simpl; [done|].
  apply IH.
  destruct (_normalize_entry w e name) as [a|] eqn:E; [|done].
  destruct (_ <=? _); [|done].
  apply Forall_app. split; [done|].
  apply Forall_singleton. by eapply _normalize_entry_url.
Qed.

Lemma fetch_articles_url w client kws hours :
  Forall (fun a => is_Some (url a)) (fetch_articles w client kws hours).
Proof.
  unfold fetch_articles. destruct client; [|by constructor].
  destruct (get_everything w _ _) as [response|]; [|by constructor].
  destruct (String.eqb _ _); [|by constructor].
  generalize_accumulator.
  induction (articles response) as [|d l IH]; intros acc Hacc; simpl; [done|].
  apply IH.
  destruct (_normalize_article w d) as [a|] eqn:E; [|done].
  apply Forall_app. split; [done|].
  apply Forall_singleton. by eapply _normalize_article_url.
Qed.

(** Every RSS feed in the order of the source list, then the API. *)
Lemma collect_order w self kws hours :
  collect w self kws hours
  = (rss_feeds self
       ≫= fun '(source_name, feed_url) =>
             fetch_feed w feed_url source_name hours)
    ++ fetch_articles w (newsapi_client self) kws hours.
Proof.
  unfold collect. f_equal.
  rewrite <- (app_nil_l (_ ≫= _)). generalize (@nil Article).
  induction (rss_feeds self) as [|[n u] l IH]; intros acc; simpl.
  - by rewrite app_nil_r.
  - rewrite IH. by rewrite <- app_assoc.
Qed.

Lemma collect_url w self kws hours :
  Forall (fun a => is_Some (url a)) (collect w self kws hours).
Proof.
  rewrite collect_order. apply Forall_app. split.
  - induction (rss_feeds self) as [|[n u] l IH]; [by constructor|].
    apply Forall_app. split; [apply fetch_feed_url | apply IH].
  - apply fetch_articles_url.
Qed.

Lemma dedup_loop_first_seen seen unique_articles todo :
  Forall (fun a => is_Some (url a)) todo →
  dedup_loop seen unique_articles todo
  = Ret (unique_articles ++ first_seen seen todo).
Proof.
  intros Hurl. revert seen unique_articles.
  induction Hurl as [|a rest [u Hu] _ IH]; intros seen unique_articles; simpl.
  - by rewrite app_nil_r.
  - rewrite Hu. simpl. case_bool_decide.
    + rewrite IH. by rewrite <- app_assoc.
    + apply IH.
Qed.

Lemma first_seen_fresh seen todo a :
  a ∈ first_seen seen todo →
  a ∈ todo ∧ ∃ u, url a = Some u ∧ u ∉ seen.
Proof.
  revert seen. induction todo as [|x rest IH]; intros seen; simpl.
  - by intros ?%elem_of_nil.
  - destruct (url x) as [v|] eqn:Hv.
    + case_bool_decide as Hseen.
      * intros [->|Hin]%elem_of_cons.
        -- split; [left|]. by exists v.
        -- apply IH in Hin as [? (u & ? & ?)].
           split; [by right|]. exists u. set_solver.
      * intros [? ?]%IH. split; [by right|done].
    + intros [? ?]%IH. split; [by right|done].
Qed.

(** Of the articles that carry a locator, the loop keeps the first. *)
Lemma first_seen_filter u seen todo :
  List.filter (has_url u) (first_seen seen todo)
  = if bool_decide (u ∈ seen) then []
    else take 1 (List.filter (has_url u) todo).
Proof.
  revert seen. induction todo as [|x rest IH]; intros seen; simpl.
  - by case_bool_decide.
  - destruct (url x) as [v|] eqn:Hv.
    + destruct (decide (v = u)) as [->|Hne].
      * assert (has_url u x = true) as Hx.
        { unfold has_url. by rewrite Hv, bool_decide_true. }
        rewrite Hx. case_bool_decide as Hseen; simpl.
        -- rewrite Hx, IH, bool_decide_true by set_solver.
           by rewrite bool_decide_false.
        -- by rewrite IH, bool_decide_true.
      * assert (has_url u x = false) as Hx.
        { unfold has_url. rewrite Hv, bool_decide_false; congruence. }
        rewrite Hx. case_bool_decide as Hseen; simpl.
        -- rewrite Hx, IH. apply (f_equal (fun b : bool => if b then _ else _)).
           apply bool_decide_ext. set_solver.
        -- apply IH.
    + assert (has_url u x = false) as ->; [|apply IH].
      unfold has_url. by rewrite Hv, bool_decide_false.
Qed.

Lemma first_index_is_Some u l a :
  a ∈ l → url a = Some u → is_Some (first_index u l).
Proof.
  intros Hin Hu. induction Hin as [a l|a x l _ IH]; simpl.
  - unfold has_url. by rewrite bool_decide_true.
  - destruct (has_url u x); [done|]. destruct IH as [i ->]; [done|]. done.
Qed.

(** The loop keeps the order of the first occurrences. *)
Lemma first_seen_order seen todo (i j : nat) a b :
  first_seen seen todo !! i = Some a →
  first_seen seen todo !! j = Some b →
  (i < j)%nat →
  ∃ ua ub ia ib,
    url a = Some ua ∧ url b = Some ub
    ∧ first_index ua todo = Some ia
    ∧ first_index ub todo = Some ib
    ∧ (ia < ib)%nat.
Proof.
  revert seen i j. induction todo as [|x rest IH]; intros seen i j; simpl.
  - done.
  - assert (∀ seen' c, c ∈ first_seen seen' rest →
              (∃ v, url x = Some v ∧ v ∈ seen') →
              ∃ uc, url c = Some uc ∧ has_url uc x = false) as Hother.
    { intros seen' c Hc (v & Hv & Hin).
      apply first_seen_fresh in Hc as [_ (uc & Huc & Hfresh)].
      exists uc. split; [done|]. unfold has_url.
      rewrite bool_decide_false; [done|]. rewrite Hv. intros [= ->]. done. }
    assert (∀ seen' i j,
              first_seen seen' rest !! i = Some a →
              first_seen seen' rest !! j = Some b →
              (i < j)%nat →
              (∃ v, url x = Some v ∧ v ∈ seen') ∨ url x = None →
              ∃ ua ub ia ib,
                url a = Some ua ∧ url b = Some ub
                ∧ (if has_url ua x then Some 0%nat
                   else S <$> first_index ua rest) = Some ia
                ∧ (if has_url ub x then Some 0%nat
                   else S <$> first_index ub rest) = Some ib
                ∧ (ia < ib)%nat) as Hrest.
    { intros seen' i' j' Ha Hb Hlt Hx.
      destruct (IH _ _ _ Ha Hb Hlt) as (ua & ub & ia & ib & ? & ? & Hia & Hib & ?).
      exists ua, ub, (S ia), (S ib).
      assert (has_url ua x = false ∧ has_url ub x = false) as [-> ->].
      { destruct Hx as [Hx|Hx].
        - apply list_elem_of_lookup_2 in Ha, Hb.
          destruct (Hother _ _ Ha Hx) as (? & ? & ?).
          destruct (Hother _ _ Hb Hx) as (? & ? & ?).
          split; congruence.
        - unfold has_url. rewrite Hx.
          by rewrite !bool_decide_false by done. }
      rewrite Hia, Hib. repeat split; try done. lia. }
    destruct (url x) as [v|] eqn:Hv.
    + case_bool_decide as Hseen.
      * destruct i as [|i]; destruct j as [|j]; simpl; try lia.
        -- intros [= <-] Hb _.
           apply list_elem_of_lookup_2 in Hb.
           destruct (Hother _ _ Hb) as (ub & Hub & Hne).
           { exists v. split; [done|]. set_solver. }
           apply first_seen_fresh in Hb as [Hb _].
           destruct (first_index_is_Some ub rest b Hb Hub) as [ib Hib].
           exists v, ub, 0%nat, (S ib).
           unfold has_url at 1. rewrite Hv, bool_decide_true by done.
           rewrite Hne, Hib. repeat split; try done. lia.
        -- intros Ha Hb Hlt. eapply Hrest; [done|done|lia|].
           left. exists v. split; [done|]. set_solver.
      * intros Ha Hb Hlt. eapply Hrest; [done|done|done|].
        left. by exists v.
    + intros Ha Hb Hlt. eapply Hrest; [done|done|done|]. by right.
Qed.

End NewsFetcherFacts.

(** The run of the aggregator on the example world. *)
Example fetch_all_articles_example :
  NewsFetcher.fetch_all_articles Examples.world Examples.fetcher
    Config.KEYWORDS Config.FETCH_WINDOW_HOURS
  = Ret [ {| url := Some "https://example.org/a";
             title := Some "OpenAI ships";
             description := Some EmptyString;
             published := 1000 * DAY;
             source := "VentureBeat";
             matched_keywords := None |};
          {| url := Some "https://example.org/b";
             title := Some "Weather";
             description := Some EmptyString;
             published := 1000 * DAY;
             source := "MIT Tech Review";
             matched_keywords := None |};
          {| url := Some "https://example.org/c";
             title := Some "Anthropic news";
             description := Some EmptyString;
             published := 1000 * DAY;
             source := "NewsAPI";
             matched_keywords := None |} ].
Proof. by vm_compute. Qed.

(* ================================================================== *)
(** * Properties of the ordering and the cap *)
(* ================================================================== *)

Section OrderingFacts.

Import Main.

Lemma insert_newest_first_perm a l : insert_newest_first a l ≡ₚ a :: l.
Proof.
  induction l as [|b l IH]; simpl; [done|].
  destruct (published b <=? published a); [done|].
  rewrite IH. apply Permutation_swap.
Qed.

Lemma sort_newest_first_perm l : sort_newest_first l ≡ₚ l.
Proof.
  induction l as [|a l IH]; simpl; [done|].
  rewrite insert_newest_first_perm. by rewrite IH.
Qed.

Lemma insert_newest_first_sorted a l :
  StronglySorted Main.newer_or_equal l →
  StronglySorted Main.newer_or_equal (insert_newest_first a l).
Proof.
  induction 1 as [|b l Hsorted IH Hb]; simpl.
  - repeat constructor.
  - destruct (Z.leb_spec (published b) (published a)) as [Hle|Hlt].
    + constructor; [by constructor|].
      constructor; [done|].
      eapply Forall_impl; [exact Hb|]. unfold newer_or_equal. simpl. lia.
    + constructor; [done|].
      rewrite insert_newest_first_perm. constructor; [|done].
      unfold newer_or_equal. lia.
Qed.

Lemma sort_newest_first_sorted l :
  StronglySorted Main.newer_or_equal (sort_newest_first l).
Proof.
  induction l as [|a l IH]; simpl; [constructor|].
  by apply insert_newest_first_sorted.
Qed.




Lemma slice_to_nonneg {A} (l : list A) (n : Z) :
  0 <= n → Py.slice_to l n = take (Z.to_nat n) l.
Proof. intros Hn. unfold Py.slice_to. by rewrite (proj2 (Z.leb_le 0 n)). Qed.

End OrderingFacts.


(* ================================================================== *)
(** * Properties of the notification tracker *)
(* ================================================================== *)

Section ArticleStorageFacts.

Import ArticleStorage.

(** Unfolds the sequencing of a storage operation. *)
Local Ltac run_storage :=
  unfold mbind, mret, st_bind, st_ret, py_bind, py_ret, Py.bind, reading.

Lemma load_sent_articles_stored f : load_sent_articles f = Ret (stored f).
Proof. by destruct f. Qed.

Lemma is_sent_stored x f :
  is_sent x f = Ret (bool_decide (is_Some (stored f !! x))).
Proof. unfold is_sent. by rewrite load_sent_articles_stored. Qed.

Lemma save_sent_articles_outcome io data f :
  save_sent_articles io data f
  = match io with
    | WriteOk => (Ret tt, Valid data)
    | OpenFails => (Raise OSError, f)
    | WriteFails => (Raise OSError, Corrupt)
    end.
Proof. by destruct io. Qed.

(** Fresh and expired records split the store. *)
Lemma size_fresh_expired cutoff (data : Store) :
  size data
  = (size (filter (fresh cutoff) data) + size (filter (expired cutoff) data))%nat.
Proof.
  rewrite <- (map_filter_union_complement (fresh cutoff) data) at 1.
  rewrite map_size_disj_union by apply map_disjoint_filter_complement.
  f_equal. f_equal. apply map_filter_ext. intros k r _.
  unfold fresh, expired. simpl. lia.
Qed.

Lemma cleanup_old_entries_outcome now io days f :
  let cutoff_date := now - days * DAY in
  let kept : Store := filter (fresh cutoff_date) (stored f) in
  let removed_count :=
    Z.of_nat (size (filter (expired cutoff_date) (stored f))) in
  cleanup_old_entries now io days f
  = if removed_count =? 0 then (Ret 0, f)
    else match io with
         | WriteOk => (Ret removed_count, Valid kept)
         | OpenFails => (Raise OSError, f)
         | WriteFails => (Raise OSError, Corrupt)
         end.
Proof.
  intros cutoff_date kept removed_count.
  unfold cleanup_old_entries. run_storage.
  rewrite load_sent_articles_stored.
  fold cutoff_date. fold kept.
  assert (Z.of_nat (size (stored f)) - Z.of_nat (size kept) = removed_count)
    as ->.
  { subst kept removed_count.
    rewrite (size_fresh_expired cutoff_date (stored f)) at 1. lia. }
  destruct (Z.eqb_spec removed_count 0) as [->|Hne]; [done|].
  rewrite (proj2 (Z.ltb_lt 0 removed_count)) by lia.
  rewrite save_sent_articles_outcome. by destruct io.
Qed.

Lemma foldl_min_spec x l :
  foldl Z.min x l ∈ x :: l ∧ Forall (fun d => foldl Z.min x l <= d) (x :: l).
Proof.
  revert x. induction l as [|y l IH]; intros x; simpl.
  - split; [left|]. apply Forall_singleton. lia.
  - destruct (IH (Z.min x y)) as [Hin Hle].
    apply Forall_cons in Hle as [Hhd Htl]. split.
    + apply elem_of_cons in Hin as [Hin|Hin]; [|set_solver].
      rewrite Hin. destruct (Z.min_spec x y) as [[_ ->]|[_ ->]]; set_solver.
    + repeat constructor; try lia. done.
Qed.

Lemma foldl_max_spec x l :
  foldl Z.max x l ∈ x :: l ∧ Forall (fun d => d <= foldl Z.max x l) (x :: l).
Proof.
  revert x. induction l as [|y l IH]; intros x; simpl.
  - split; [left|]. apply Forall_singleton. lia.
  - destruct (IH (Z.max x y)) as [Hin Hle].
    apply Forall_cons in Hle as [Hhd Htl]. split.
    + apply elem_of_cons in Hin as [Hin|Hin]; [|set_solver].
      rewrite Hin. destruct (Z.max_spec x y) as [[_ ->]|[_ ->]]; set_solver.
    + repeat constructor; try lia. done.
Qed.

(** The dates [get_stats] collects are the [sent_at] of the records. *)
Lemma elem_of_dates (data : Store) d :
  d ∈ (fun entry : string * SentRecord => sent_at entry.2) <$> map_to_list data
  ↔ ∃ k r, data !! k = Some r ∧ sent_at r = d.
Proof.
  rewrite list_elem_of_fmap. split.
  - intros ([k r] & -> & Hin). apply elem_of_map_to_list in Hin. by exists k, r.
  - intros (k & r & Hin & <-). exists (k, r).
    split; [done|]. by apply elem_of_map_to_list.
Qed.

Lemma truthy_nonempty (text : string) : Py.truthy text = true ↔ text ≠ EmptyString.
Proof. by destruct text. Qed.

(** Every record [mark_all] leaves in the store was there before or was
    written for an article of the batch that has a locator, with the
    timestamp of the call. *)
Lemma mark_all_lookup t articles (data : Store) k r :
  mark_all t articles data !! k = Some r →
  data !! k = Some r
  ∨ (sent_at r = t ∧ rec_url r = k ∧ k ≠ EmptyString
     ∧ ∃ a, a ∈ articles ∧ url a = Some k
            ∧ rec_title r = Py.get (title a) EmptyString).
Proof.
  unfold mark_all. revert data.
  induction articles as [|a l IH]; intros data; simpl; [by left|].
  intros Hk. apply IH in Hk as [Hk|(? & ? & ? & b & ? & ? & ?)].
  - destruct (Py.truthy (Py.get (url a) EmptyString)) eqn:Hurl; [|by left].
    apply truthy_nonempty in Hurl.
    destruct (decide (Py.get (url a) EmptyString = k)) as [Heq|Hne].
    + rewrite Heq, lookup_insert_eq in Hk. injection Hk as <-. right.
      simpl. repeat split; try congruence. exists a.
      split; [left|]. split; [|done].
      destruct (url a); simpl in *; congruence.
    + rewrite lookup_insert_ne in Hk by done. by left.
  - right. repeat split; try done. exists b. split; [by right|done].
Qed.

Lemma mark_all_stamped t articles (data : Store) k r :
  data !! k = Some r → sent_at r = t → rec_url r = k →
  ∃ r', mark_all t articles data !! k = Some r'
        ∧ sent_at r' = t ∧ rec_url r' = k.
Proof.
  unfold mark_all. revert data r.
  induction articles as [|a l IH]; intros data r Hk Ht Hu; simpl.
  - by exists r.
  - destruct (Py.truthy (Py.get (url a) EmptyString)); [|by eapply IH].
    destruct (decide (Py.get (url a) EmptyString = k)) as [Heq|Hne].
    + eapply IH; [rewrite Heq; apply lookup_insert_eq|done|done].
    + eapply IH; [by rewrite lookup_insert_ne|done|done].
Qed.

(** Every article of the batch that has a locator gets a record. *)
Lemma mark_all_inserts t articles (data : Store) a k :
  a ∈ articles → url a = Some k → k ≠ EmptyString →
  ∃ r, mark_all t articles data !! k = Some r ∧ sent_at r = t ∧ rec_url r = k.
Proof.
  intros Hin Hu Hk. revert data.
  induction Hin as [a l|a b l _ IH]; intros data.
  - unfold mark_all. simpl. rewrite Hu. simpl.
    rewrite (proj2 (truthy_nonempty k)) by done.
    eapply mark_all_stamped; [apply lookup_insert_eq|done|done].
  - unfold mark_all. simpl. apply IH; done.
Qed.

(** An article without a locator leaves no trace. *)
Lemma mark_all_skip t l1 a l2 (data : Store) :
  Py.get (url a) EmptyString = EmptyString →
  mark_all t (l1 ++ a :: l2) data = mark_all t (l1 ++ l2) data.
Proof.
  intros Hu. unfold mark_all. rewrite !foldl_app. simpl. by rewrite Hu.
Qed.

Lemma mark_all_keyed t articles (data : Store) :
  keyed_by_url data → keyed_by_url (mark_all t articles data).
Proof.
  intros Hkeyed k r Hk.
  apply mark_all_lookup in Hk as [Hk|(_ & ? & _)]; [by eapply Hkeyed|done].
Qed.

Lemma mark_multiple_as_sent_outcome now io articles f :
  mark_multiple_as_sent now io articles f
  = match io with
    | WriteOk => (Ret tt, Valid (mark_all now articles (stored f)))
    | OpenFails => (Raise OSError, f)
    | WriteFails => (Raise OSError, Corrupt)
    end.
Proof.
  unfold mark_multiple_as_sent. run_storage.
  rewrite load_sent_articles_stored. apply save_sent_articles_outcome.
Qed.

Lemma keyed_by_url_empty : keyed_by_url ∅.
Proof. intros k r Hk. by rewrite lookup_empty in Hk. Qed.

Lemma perform_keyed op f :
  keyed_by_url (stored f) → keyed_by_url (stored (perform op f)).
Proof.
  intros Hkeyed. destruct op as [now io a|now io l|now io days]; simpl.
  - unfold mark_as_sent. run_storage. rewrite load_sent_articles_stored.
    destruct (negb _); [done|].
    rewrite save_sent_articles_outcome.
    destruct io; simpl; [|done|apply keyed_by_url_empty].
    intros k r Hk.
    destruct (decide (Py.get (url a) EmptyString = k)) as [Heq|Hne].
    + rewrite Heq, lookup_insert_eq in Hk. by injection Hk as <-.
    + rewrite lookup_insert_ne in Hk by done. by eapply Hkeyed.
  - rewrite mark_multiple_as_sent_outcome.
    destruct io; simpl; [|done|apply keyed_by_url_empty].
    by apply mark_all_keyed.
  - rewrite cleanup_old_entries_outcome.
    destruct (_ =? 0); [done|].
    destruct io; simpl; [|done|apply keyed_by_url_empty].
    intros k r [Hk _]%map_lookup_filter_Some. by eapply Hkeyed.
Qed.

End ArticleStorageFacts.

(** C3, as the code has it.  [cleanup_old_entries] removes exactly the
    records whose [sent_at] is at the cutoff (now minus the retention days)
    or before it, and no others; it returns the number of records
    removed; it rewrites the file only when that number is positive (the
    file is left as it was otherwise, and the rewrite then succeeds or
    raises as the disk decides).  With 30 days a record sent 31 days ago
    is removed and a record sent 29 days ago is kept. *)
Theorem cleanup_removes_expired (now : Z) (io : ArticleStorage.write_outcome)
    (days : Z) (f : ArticleStorage.file_state) :
  let before := ArticleStorage.stored f in
  let cutoff_date := now - days * DAY in
  ∃ (kept : gmap string ArticleStorage.SentRecord) (removed_count : Z),
    (∀ k, kept !! k
          = match before !! k with
            | Some r =>
                if decide (ArticleStorage.sent_at r <= cutoff_date)
                then None else Some r
            | None => None
            end)
    ∧ removed_count = Z.of_nat (size before) - Z.of_nat (size kept)
    ∧ removed_count
      = Z.of_nat (size (filter (ArticleStorage.expired cutoff_date) before))
    ∧ ArticleStorage.cleanup_old_entries now io days f
      = (if removed_count =? 0 then (Ret 0, f)
         else match io with
              | ArticleStorage.WriteOk =>
                  (Ret removed_count, ArticleStorage.Valid kept)
              | ArticleStorage.OpenFails => (Raise OSError, f)
              | ArticleStorage.WriteFails =>
                  (Raise OSError, ArticleStorage.Corrupt)
              end)
    ∧ (days = 30 →
       ∀ k r, before !! k = Some r →
         (ArticleStorage.sent_at r = now - 31 * DAY → kept !! k = None)
         ∧ (ArticleStorage.sent_at r = now - 29 * DAY → kept !! k = Some r)).
Proof.
  intros before cutoff_date.
  exists (filter (ArticleStorage.fresh cutoff_date) before).
  exists (Z.of_nat (size (filter (ArticleStorage.expired cutoff_date) before))).
  assert (∀ k, filter (ArticleStorage.fresh cutoff_date) before !! k
               = match before !! k with
                 | Some r =>
                     if decide (ArticleStorage.sent_at r <= cutoff_date)
                     then None else Some r
                 | None => None
                 end) as Hkept.
  { intros k. rewrite map_lookup_filter.
    destruct (before !! k) as [r|]; simpl; [|done].
    unfold ArticleStorage.fresh. simpl.
    destruct (decide (ArticleStorage.sent_at r <= cutoff_date));
      case_guard; simpl; try done; lia. }
  split; [done|]. split.
  { rewrite (size_fresh_expired cutoff_date before) at 1. lia. }
  split; [done|]. split; [apply cleanup_old_entries_outcome|].
  intros -> k r Hk. rewrite Hkept, Hk. subst cutoff_date. unfold DAY, HOUR.
  split; intros ->; case_decide; try done; lia.
Qed.

(** The claim as worded fails at the cutoff itself: a record sent exactly
    30 days ago is not older than the cutoff of [cleanup(30)], and it is
    removed. *)
Lemma cleanup_removes_record_at_cutoff :
  let now := 1000 * DAY in
  let r := {| ArticleStorage.sent_at := now - 30 * DAY;
              ArticleStorage.rec_title := "OpenAI ships";
              ArticleStorage.rec_url := "https://example.org/a" |} in
  let f := ArticleStorage.Valid {[ "https://example.org/a" := r ]} in
  let after :=
    ArticleStorage.cleanup_old_entries now ArticleStorage.WriteOk 30 f in
  ¬ (ArticleStorage.sent_at r < now - 30 * DAY)
  ∧ after.1 = Ret 1
  ∧ ArticleStorage.stored after.2 !! "https://example.org/a" = None.
Proof. by vm_compute. Qed.

(** C9, as the code has it.  [get_stats] returns a record of total,
    oldest and newest; the total is always the number of records (0 for
    the empty store, never [None]); oldest and newest are [None] when the
    store is empty and otherwise the least and the greatest [sent_at] of
    the store. *)
Theorem get_stats_summary (f : ArticleStorage.file_state) :
  let data := ArticleStorage.stored f in
  ∃ stats,
    ArticleStorage.get_stats f = Ret stats
    ∧ ArticleStorage.total stats = Some (Z.of_nat (size data))
    ∧ (data = ∅ →
       ArticleStorage.total stats = Some 0
       ∧ ArticleStorage.oldest stats = None
       ∧ ArticleStorage.newest stats = None)
    ∧ (data ≠ ∅ →
       ∃ lo hi,
         ArticleStorage.oldest stats = Some lo
         ∧ ArticleStorage.newest stats = Some hi
         ∧ (∃ k r, data !! k = Some r ∧ ArticleStorage.sent_at r = lo)
         ∧ (∀ k r, data !! k = Some r → lo <= ArticleStorage.sent_at r)
         ∧ (∃ k r, data !! k = Some r ∧ ArticleStorage.sent_at r = hi)
         ∧ (∀ k r, data !! k = Some r → ArticleStorage.sent_at r <= hi)).
Proof.
  intros data. unfold ArticleStorage.get_stats.
  rewrite load_sent_articles_stored. fold data.
  unfold mbind, py_bind, Py.bind. case_bool_decide as Hempty.
  - eexists. split; [done|]. simpl. rewrite Hempty, map_size_empty.
    repeat split; done.
  - pose proof (elem_of_dates data) as Hdates.
    destruct (map_to_list data) as [|[k0 r0] l] eqn:Hlist.
    { by apply map_to_list_empty_iff in Hlist. }
    simpl. eexists. split; [done|]. simpl.
    split. { by rewrite <- length_map_to_list, Hlist. }
    split; [done|]. intros _.
    set (dates := (fun entry : string * ArticleStorage.SentRecord =>
                     ArticleStorage.sent_at entry.2) <$> l) in *.
    destruct (foldl_min_spec (ArticleStorage.sent_at r0) dates) as [Hlo Hmin].
    destruct (foldl_max_spec (ArticleStorage.sent_at r0) dates) as [Hhi Hmax].
    rewrite Forall_forall in Hmin, Hmax.
    eexists _, _. split; [done|]. split; [done|].
    split; [by apply Hdates|]. split.
    { intros k r Hk. apply Hmin, Hdates. by exists k, r. }
    split; [by apply Hdates|].
    intros k r Hk. apply Hmax, Hdates. by exists k, r.
Qed.

(** The claim as worded fails on the empty store: the total is the
    number 0, not [None]. *)
Lemma get_stats_total_of_empty_store :
  ∃ f stats,
    ArticleStorage.stored f = ∅
    ∧ ArticleStorage.get_stats f = Ret stats
    ∧ ArticleStorage.total stats = Some 0
    ∧ ArticleStorage.total stats ≠ None.
Proof. exists (ArticleStorage.Valid ∅). eexists. by vm_compute. Qed.

(** C10.  Starting from a store in which every key holds a record whose
    [url] is that key (the empty store of a new file is one), any
    sequence of [mark_as_sent], [mark_multiple_as_sent] and
    [cleanup_old_entries], whatever the disk does, leaves such a store.
    [mark_multiple_as_sent] writes nothing for an article whose [url] is
    missing or empty, and every record it writes carries the one timestamp
    read at the start of the call. *)
Theorem store_keyed_by_url (ops : list ArticleStorage.operation)
    (f : ArticleStorage.file_state) :
  ArticleStorage.keyed_by_url (ArticleStorage.stored f) →
  ArticleStorage.keyed_by_url
    (ArticleStorage.stored (ArticleStorage.perform_all ops f))
  ∧ (∀ now io articles f0,
       let after :=
         ArticleStorage.stored
           (ArticleStorage.mark_multiple_as_sent now io articles f0).2 in
       (∀ k r, after !! k = Some r →
          ArticleStorage.stored f0 !! k = Some r
          ∨ (ArticleStorage.sent_at r = now
             ∧ ArticleStorage.rec_url r = k
             ∧ k ≠ EmptyString
             ∧ ∃ a, a ∈ articles ∧ url a = Some k
                    ∧ ArticleStorage.rec_title r = Py.get (title a) EmptyString))
       ∧ (io = ArticleStorage.WriteOk →
          ∀ a k, a ∈ articles → url a = Some k → k ≠ EmptyString →
            ∃ r, after !! k = Some r
                 ∧ ArticleStorage.sent_at r = now
                 ∧ ArticleStorage.rec_url r = k))
  ∧ (∀ now io l1 a l2 f0,
       url a = None ∨ url a = Some EmptyString →
       ArticleStorage.mark_multiple_as_sent now io (l1 ++ a :: l2) f0
       = ArticleStorage.mark_multiple_as_sent now io (l1 ++ l2) f0).
Proof.
  intros Hkeyed. split; [|split].
  - revert f Hkeyed. induction ops as [|op ops IH]; intros f Hkeyed; [done|].
    simpl. apply IH. by apply perform_keyed.
  - intros now io articles f0 after. subst after.
    rewrite mark_multiple_as_sent_outcome. split.
    + intros k r. destruct io; simpl.
      * apply mark_all_lookup.
      * by left.
      * by rewrite lookup_empty.
    + intros -> a k Hin Hu Hk. simpl. by eapply mark_all_inserts.
  - intros now io l1 a l2 f0 Hu.
    rewrite !mark_multiple_as_sent_outcome.
    rewrite mark_all_skip; [done|]. by destruct Hu as [->| ->].
Qed.

Lemma store_keyed_by_url_witness :
  let ops :=
    [ ArticleStorage.MarkAsSent (1000 * DAY) ArticleStorage.WriteOk
        (Examples.article "https://example.org/a" "OpenAI ships" 0);
      ArticleStorage.MarkMultipleAsSent (1001 * DAY) ArticleStorage.WriteOk
        [ Examples.article "https://example.org/b" "Anthropic news" 0;
          Examples.article EmptyString "no locator" 0 ];
      ArticleStorage.CleanupOldEntries (1030 * DAY + HOUR) ArticleStorage.WriteOk
        30 ]
  in
  ArticleStorage.keyed_by_url
    (ArticleStorage.stored
       (ArticleStorage.perform_all ops ArticleStorage.Missing)).
Proof.
  intros ops.
  apply (store_keyed_by_url ops ArticleStorage.Missing).
  simpl. apply keyed_by_url_empty.
Defined.

(** What the three operations of the witness leave in the store. *)
Example perform_all_example :
  ArticleStorage.stored
    (ArticleStorage.perform_all
       [ ArticleStorage.MarkAsSent (1000 * DAY) ArticleStorage.WriteOk
           (Examples.article "https://example.org/a" "OpenAI ships" 0);
         ArticleStorage.MarkMultipleAsSent (1001 * DAY) ArticleStorage.WriteOk
           [ Examples.article "https://example.org/b" "Anthropic news" 0;
             Examples.article EmptyString "no locator" 0 ];
         ArticleStorage.CleanupOldEntries (1030 * DAY + HOUR) ArticleStorage.WriteOk
        30 ]
       ArticleStorage.Missing)
  = {[ "https://example.org/b" :=
         {| ArticleStorage.sent_at := 1001 * DAY;
            ArticleStorage.rec_title := "Anthropic news";
            ArticleStorage.rec_url := "https://example.org/b" |} ]}.
Proof. by vm_compute. Qed.

(* ================================================================== *)
(** * Properties of the notifier *)
(* ================================================================== *)

Section TelegramNotifierFacts.

Import TelegramNotifier.

(** The loop always answers, with at most one attempt per iteration. *)
Lemma send_loop_returns transport message retry_count todo attempt :
  ∃ b evs,
    send_loop transport message retry_count todo attempt = (Ret b, evs)
    ∧ (length (attempts evs) <= todo)%nat.
Proof.
  revert attempt. induction todo as [|todo IH]; intros attempt; simpl.
  - by exists false, [].
  - destruct (transport attempt) as [[]|e].
    + exists true. eexists. split; [done|]. simpl. lia.
    + destruct e; try (exists false; eexists; split; [done|]; simpl; lia).
      destruct (attempt <? retry_count - 1).
      * destruct (IH (attempt + 1)) as (b & evs & -> & Hlen).
        exists b. eexists. split; [done|]. simpl. lia.
      * exists false. eexists. split; [done|]. simpl. lia.
Qed.

(** The loop, when the attempts before number [first + more] meet a
    [TelegramError] and that one ends the delivery. *)
Lemma send_loop_trace transport message retry_count (first more todo : nat) :
  (∀ i : nat, (first <= i < first + more)%nat →
     transport (Z.of_nat i) = Raise TelegramError) →
  Z.of_nat (first + more) < retry_count →
  todo = Z.to_nat (retry_count - Z.of_nat first) →
  transport (Z.of_nat (first + more)) ≠ Raise TelegramError
  ∨ Z.of_nat (first + more) = retry_count - 1 →
  send_loop transport message retry_count todo (Z.of_nat first)
  = (Ret (delivered (transport (Z.of_nat (first + more)))),
     retry_trace_from message first more).
Proof.
  revert first todo. induction more as [|more IH]; intros first todo Herr Hlt -> Hlast.
  - rewrite Nat.add_0_r in *.
    destruct (Z.to_nat (retry_count - Z.of_nat first)) as [|todo] eqn:Htodo;
      [lia|].
    unfold retry_trace_from. rewrite Nat.add_0_r. simpl.
    destruct (transport (Z.of_nat first)) as [[]|e]; [done|].
    destruct e; try done.
    destruct Hlast as [?|Hlast]; [done|].
    by rewrite (proj2 (Z.ltb_ge _ _)) by lia.
  - destruct (Z.to_nat (retry_count - Z.of_nat first)) as [|todo] eqn:Htodo;
      [lia|].
    simpl. rewrite Herr by lia.
    rewrite (proj2 (Z.ltb_lt _ _)) by lia.
    replace (Z.of_nat first + 1) with (Z.of_nat (S first)) by lia.
    rewrite (IH (S first) todo); try lia.
    + unfold retry_trace_from. simpl.
      by replace (first + S more)%nat with (S (first + more)) by lia.
    + intros i Hi. apply Herr. lia.
    + by replace (S first + more)%nat with (first + S more)%nat by lia.
Qed.

Lemma init_unconfigured bot_token chat :
  bot_token = EmptyString ∨ chat = EmptyString →
  init bot_token chat = {| bot := None; chat_id := None |}
  ∧ configured (init bot_token chat) = false.
Proof.
  unfold init. intros [-> | ->]; [done|]. by destruct bot_token.
Qed.

Lemma retry_trace_attempts message n :
  attempts (retry_trace message n)
  = (fun i => SendMessage (Z.of_nat i) message) <$> seq 0 (S n).
Proof.
  unfold retry_trace, attempts. rewrite seq_S, fmap_app. simpl.
  rewrite List.filter_app. simpl. f_equal.
  induction (seq 0 n) as [|i l IH]; [done|]. csimpl. by rewrite IH.
Qed.

Lemma retry_trace_delays message n :
  delays (retry_trace message n) = (fun i => 2 ^ Z.of_nat i) <$> seq 0 n.
Proof.
  unfold retry_trace, delays. rewrite omap_app. simpl.
  rewrite app_nil_r.
  induction (seq 0 n) as [|i l IH]; [done|]. csimpl. by rewrite IH.
Qed.

End TelegramNotifierFacts.

(** C6.  [_send_message_async] always returns a boolean, never an
    exception, after at most [retry_count] attempts.  With a configured
    transport: as long as attempts meet a [TelegramError] and the count is
    not exhausted the next attempt follows after a pause of 1, 2, 4, ...
    seconds (two to the power of the attempt number, so each pause is
    twice the one before); the delivery ends with the first attempt that
    goes through (true), or that meets any other exception (false, no
    further attempt), or that is attempt number [retry_count - 1]
    (false). *)
Theorem send_message_retries (self : TelegramNotifier.t)
    (transport : TelegramNotifier.Transport)
    (message : TelegramNotifier.Message) (retry_count : Z) :
  (∃ b evs,
     TelegramNotifier._send_message_async self transport message retry_count
     = (Ret b, evs)
     ∧ Z.of_nat (length (TelegramNotifier.attempts evs)) <= Z.max 0 retry_count)
  ∧ (TelegramNotifier.configured self = true →
     ∀ n : nat,
       Z.of_nat n < retry_count →
       (∀ i : nat, (i < n)%nat → transport (Z.of_nat i) = Raise TelegramError) →
       transport (Z.of_nat n) ≠ Raise TelegramError
       ∨ Z.of_nat n = retry_count - 1 →
       TelegramNotifier._send_message_async self transport message retry_count
       = (Ret (TelegramNotifier.delivered (transport (Z.of_nat n))),
          TelegramNotifier.retry_trace message n))
  ∧ (∀ n : nat,
       TelegramNotifier.attempts (TelegramNotifier.retry_trace message n)
       = (fun i => TelegramNotifier.SendMessage (Z.of_nat i) message)
           <$> seq 0 (S n)
       ∧ TelegramNotifier.delays (TelegramNotifier.retry_trace message n)
         = (fun i => 2 ^ Z.of_nat i) <$> seq 0 n)
  ∧ (∀ i : nat, 2 ^ Z.of_nat (S i) = 2 * 2 ^ Z.of_nat i).
Proof.
  split; [|split; [|split]].
  - unfold TelegramNotifier._send_message_async.
    destruct (negb (TelegramNotifier.configured self)).
    { exists false, []. split; [done|]. simpl. lia. }
    destruct (send_loop_returns transport message retry_count
                (Z.to_nat retry_count) 0) as (b & evs & -> & Hlen).
    exists b, evs. split; [done|]. lia.
  - unfold TelegramNotifier._send_message_async.
    intros -> n Hn Herr Hlast. cbn [negb].
    rewrite (send_loop_trace transport message retry_count 0 n); try done.
    + intros i Hi. apply Herr. lia.
    + f_equal. lia.
  - intros n. split; [apply retry_trace_attempts|apply retry_trace_delays].
  - intros i. rewrite Nat2Z.inj_succ, Z.pow_succ_r; lia.
Qed.

(** Three deliveries with the default count of three attempts: every
    attempt meets a [TelegramError]; the second attempt goes through; the
    first attempt meets another exception. *)
Example send_message_exhausted :
  TelegramNotifier._send_message_async
    (TelegramNotifier.init "token" "chat") (fun _ => Raise TelegramError)
    (TelegramNotifier.Alert "x") 3
  = (Ret false,
     [ TelegramNotifier.SendMessage 0 (TelegramNotifier.Alert "x");
       TelegramNotifier.Sleep 1;
       TelegramNotifier.SendMessage 1 (TelegramNotifier.Alert "x");
       TelegramNotifier.Sleep 2;
       TelegramNotifier.SendMessage 2 (TelegramNotifier.Alert "x") ]).
Proof. reflexivity. Qed.

Example send_message_second_attempt :
  TelegramNotifier._send_message_async
    (TelegramNotifier.init "token" "chat")
    (fun attempt => if attempt =? 0 then Raise TelegramError else Ret tt)
    (TelegramNotifier.Alert "x") 3
  = (Ret true,
     [ TelegramNotifier.SendMessage 0 (TelegramNotifier.Alert "x");
       TelegramNotifier.Sleep 1;
       TelegramNotifier.SendMessage 1 (TelegramNotifier.Alert "x") ]).
Proof. reflexivity. Qed.

Example send_message_unexpected_error :
  TelegramNotifier._send_message_async
    (TelegramNotifier.init "token" "chat") (fun _ => Raise OtherException)
    (TelegramNotifier.Alert "x") 3
  = (Ret false,
     [ TelegramNotifier.SendMessage 0 (TelegramNotifier.Alert "x") ]).
Proof. reflexivity. Qed.

(** C7.  [send_digest] on an empty list attempts nothing and answers
    false; a notifier built without a token or without a chat id answers
    false at once, for a digest as for any message, without any attempt
    (and without any pause). *)
Theorem send_digest_nothing_to_send :
  (∀ self transport clock max_articles,
     TelegramNotifier.send_digest self transport clock [] max_articles
     = (Ret false, []))
  ∧ (∀ bot_token chat transport clock articles max_articles,
       bot_token = EmptyString ∨ chat = EmptyString →
       TelegramNotifier.send_digest (TelegramNotifier.init bot_token chat)
         transport clock articles max_articles
       = (Ret false, []))
  ∧ (∀ bot_token chat transport message retry_count,
       bot_token = EmptyString ∨ chat = EmptyString →
       TelegramNotifier._send_message_async
         (TelegramNotifier.init bot_token chat) transport message retry_count
       = (Ret false, [])).
Proof.
  split; [done|]. split.
  - intros bot_token chat transport clock articles max_articles Hmissing.
    unfold TelegramNotifier.send_digest,
      TelegramNotifier._send_message_async.
    rewrite (proj2 (init_unconfigured _ _ Hmissing)). by destruct articles.
  - intros bot_token chat transport message retry_count Hmissing.
    unfold TelegramNotifier._send_message_async.
    by rewrite (proj2 (init_unconfigured _ _ Hmissing)).
Qed.

(* ================================================================== *)
(** * Properties of the orchestrator *)
(* ================================================================== *)

Section MainFacts.

Import ArticleStorage Main.

(** Unfolds the sequencing of a run. *)
Local Ltac run_process :=
  unfold mbind, mret, st_bind, st_ret, py_bind, py_ret, Py.bind,
    on_file, reading_file, notifying, logging, pure.

Lemma ensure_storage_exists_stored io f :
  stored (ensure_storage_exists io f).2 = stored f.
Proof. by destruct f, io. Qed.

(** What pruning can do to the store: nothing is added, a fresh record
    survives unless the rewrite breaks the file, an expired record goes
    when the rewrite succeeds. *)
Lemma cleanup_old_entries_shrinks now io days f k r :
  stored (cleanup_old_entries now io days f).2 !! k = Some r →
  stored f !! k = Some r.
Proof.
  rewrite cleanup_old_entries_outcome.
  destruct (_ =? 0); [done|]. destruct io; simpl; [|done|by rewrite lookup_empty].
  by intros [? _]%map_lookup_filter_Some.
Qed.

Lemma cleanup_old_entries_keeps_fresh now io days f k r :
  io ≠ WriteFails →
  stored f !! k = Some r →
  now - days * DAY < sent_at r →
  stored (cleanup_old_entries now io days f).2 !! k = Some r.
Proof.
  intros Hio Hk Hfresh. rewrite cleanup_old_entries_outcome.
  destruct (_ =? 0); [done|]. destruct io; simpl; [|done|done].
  by apply map_lookup_filter_Some.
Qed.

Lemma cleanup_old_entries_drops_expired now days f k r :
  stored f !! k = Some r →
  sent_at r <= now - days * DAY →
  stored (cleanup_old_entries now WriteOk days f).2 !! k = None.
Proof.
  intros Hk Hexpired. rewrite cleanup_old_entries_outcome.
  destruct (Z.eqb_spec
              (Z.of_nat (size (filter (expired (now - days * DAY)) (stored f))))
              0) as [Hzero|_]; simpl.
  - assert (filter (expired (now - days * DAY)) (stored f) !! k = Some r)
      as Hin by by apply map_lookup_filter_Some.
    assert (filter (expired (now - days * DAY)) (stored f) = ∅) as Hempty
      by (apply map_size_empty_iff; lia).
    by rewrite Hempty, lookup_empty in Hin.
  - apply map_lookup_filter_None. right. intros r' Hk'.
    unfold fresh. simpl. assert (r' = r) as -> by congruence. lia.
Qed.

(** Step 4 keeps articles the tracker does not know. *)
Lemma not_yet_sent_spec matched f new_articles a :
  not_yet_sent matched f = Ret new_articles →
  a ∈ new_articles →
  a ∈ matched ∧ ∃ u, url a = Some u ∧ is_sent u f = Ret false.
Proof.
  revert new_articles.
  induction matched as [|x rest IH]; intros new_articles; simpl.
  - intros [= <-]. by intros ?%elem_of_nil.
  - destruct (url x) as [u|] eqn:Hu; [|done]. simpl.
    rewrite is_sent_stored. unfold mbind, py_bind, Py.bind.
    destruct (not_yet_sent rest f) as [new_rest|] eqn:Hrest; [|done].
    case_bool_decide as Hsent; intros [= <-].
    + intros Hin. destruct (IH _ eq_refl Hin) as [? ?]. split; [by right|done].
    + intros [->|Hin]%elem_of_cons.
      * split; [left|]. exists u. split; [done|].
        by rewrite is_sent_stored, bool_decide_false.
      * destruct (IH _ eq_refl Hin) as [? ?]. split; [by right|done].
Qed.

Lemma sort_and_cap_subset cap new_articles a :
  a ∈ sort_and_cap cap new_articles → a ∈ new_articles.
Proof.
  unfold sort_and_cap, Py.slice_to. intros Hin.
  rewrite <- (sort_newest_first_perm new_articles).
  destruct (0 <=? cap); by eapply subseteq_take.
Qed.

(** The batch is made of articles the tracker does not know. *)
Lemma digest_batch_unsent env f batch a :
  digest_batch env f = Ret (Some batch) →
  a ∈ batch →
  ∃ u, url a = Some u ∧ is_sent u f = Ret false.
Proof.
  unfold digest_batch. unfold mbind, py_bind, Py.bind.
  destruct (NewsFetcher.fetch_all_articles _ _ _ _) as [[|x all]|]; try done.
  destruct (KeywordMatcher.filter_articles _ _) as [|y matched]; [done|].
  destruct (not_yet_sent (y :: matched) f) as [[|z new_articles]|] eqn:Hnew;
    try done.
  intros [= <-] Hin. apply sort_and_cap_subset in Hin.
  by destruct (not_yet_sent_spec _ _ _ _ Hnew Hin) as [_ ?].
Qed.

Lemma delivery_returns env batch : ∃ b, delivery env batch = Ret b.
Proof.
  unfold delivery, TelegramNotifier.send_digest.
  destruct batch as [|a batch]; [by exists false|].
  unfold TelegramNotifier._send_message_async.
  destruct (negb (TelegramNotifier.configured _)); [by exists false|].
  destruct (send_loop_returns (digest_transport env)
              (TelegramNotifier.format_digest_message (clock env) (a :: batch)
                 Config.MAX_ARTICLES_IN_DIGEST) 3 (Z.to_nat 3) 0)
    as (b & evs & -> & _).
  by exists b.
Qed.

Lemma get_stats_returns f : ∃ stats, get_stats f = Ret stats.
Proof.
  unfold get_stats. rewrite load_sent_articles_stored.
  unfold mbind, py_bind, Py.bind. case_bool_decide as Hempty; [by eexists|].
  destruct (map_to_list (stored f)) as [|[k r] l] eqn:Hlist.
  { by apply map_to_list_empty_iff in Hlist. }
  by eexists.
Qed.

(** A run that reaches delivery: what it leaves behind. *)
Lemma main_after_delivery env f batch b :
  attempted_batch env f = Some batch →
  delivery env batch = Ret b →
  let f1 := (ensure_storage_exists (init_io env) f).2 in
  ∃ evs alert,
    main env f
    = if b then
        match mark_multiple_as_sent (mark_now env) (mark_io env) batch f1 with
        | (Ret _, f2) =>
            match cleanup_old_entries (cleanup_now env) (cleanup_io env)
                    Config.CLEANUP_DAYS f2 with
            | (Ret _, f3) =>
                (0, {| file := f3; sent := evs;
                       log := [Tracked batch; Completed] |})
            | (Raise _, f3) =>
                (1, {| file := f3; sent := evs ++ alert;
                       log := [Tracked batch] |})
            end
        | (Raise _, f2) =>
            (1, {| file := f2; sent := evs ++ alert; log := [] |})
        end
      else
        match cleanup_old_entries (cleanup_now env) (cleanup_io env)
                Config.CLEANUP_DAYS f1 with
        | (Ret _, f3) =>
            (0, {| file := f3; sent := evs; log := [NotMarked; Completed] |})
        | (Raise _, f3) =>
            (1, {| file := f3; sent := evs ++ alert; log := [NotMarked] |})
        end.
Proof.
  unfold attempted_batch, delivery, main, run, deliver_and_commit.
  run_process. cbn [file sent log].
  destruct (ensure_storage_exists (init_io env) f) as [[[]|e] f1]; [|done].
  cbn [file sent log fst snd].
  destruct (get_stats_returns f1) as [stats ->].
  destruct (digest_batch env f1) as [[batch'|]|]; try done.
  destruct (log_details batch') as [[]|]; [|done].
  intros [= ->].
  destruct (TelegramNotifier.send_digest _ _ _ _ _) as [r evs].
  cbn [fst snd]. intros ->.
  destruct (TelegramNotifier.send_error_notification _ _ _) as [r' alert].
  exists evs, alert. cbn [file sent log fst snd app].
  destruct b; cbn [file sent log fst snd app].
  - destruct (mark_multiple_as_sent _ _ _ _) as [[[]|?] f2];
      cbn [file sent log fst snd app]; [|done].
    by destruct (cleanup_old_entries _ _ _ _) as [[?|?] f3].
  - by destruct (cleanup_old_entries _ _ _ _) as [[?|?] f3].
Qed.

(** A run that stops before delivery leaves the store as it was. *)
Lemma main_without_delivery env f :
  attempted_batch env f = None →
  stored (file (main env f).2) = stored f ∧ log (main env f).2 = [].
Proof.
  unfold attempted_batch, main, run, deliver_and_commit.
  run_process. cbn [file sent log].
  pose proof (ensure_storage_exists_stored (init_io env) f) as Hinit.
  destruct (ensure_storage_exists (init_io env) f) as [[[]|e] f1];
    cbn [snd] in Hinit; cbn [file sent log fst snd].
  2:{ intros _. by destruct (TelegramNotifier.send_error_notification _ _ _). }
  destruct (get_stats_returns f1) as [stats ->].
  destruct (digest_batch env f1) as [[batch'|]|]; cbn [file sent log fst snd].
  - destruct (log_details batch') as [[]|]; [done|]. intros _.
    by destruct (TelegramNotifier.send_error_notification _ _ _).
  - done.
  - intros _. by destruct (TelegramNotifier.send_error_notification _ _ _).
Qed.

End MainFacts.

(** The claim as worded fails on a run whose delivery fails: step 9
    prunes all the same, so a locator that was sent 31 days ago is
    reported sent before the run and not sent after it, although nothing
    was committed. *)
Lemma failed_delivery_run_prunes :
  let env := Examples.env Examples.transport_down ArticleStorage.WriteOk in
  let f := Examples.old_file in
  Main.attempted_batch env f = Some Examples.batch
  ∧ Main.delivery env Examples.batch = Ret false
  ∧ ArticleStorage.is_sent "https://example.org/old" f = Ret true
  ∧ ArticleStorage.is_sent "https://example.org/old"
      (Main.file (Main.main env f).2) = Ret false
  ∧ Main.log (Main.main env f).2 = [ Main.NotMarked; Main.Completed ].
Proof. by vm_compute. Qed.

(** C2, as the code has it.  A run that stops before delivery leaves
    [is_sent] as it was for every locator.  When delivery reports failure
    nothing is committed: every article of the batch was not sent before
    the run and is not sent after it, no locator that was not sent becomes
    sent, and the log says so; but the pruning of step 9 runs all the
    same, so a record at or before the retention cutoff stops being sent
    (when the rewrite succeeds), while a record after the cutoff stays
    sent (unless the rewrite breaks the file). *)
Theorem failed_delivery_commits_nothing (env : Main.Env)
    (f : ArticleStorage.file_state) :
  let after := Main.file (Main.main env f).2 in
  let cutoff_date := Main.cleanup_now env - Config.CLEANUP_DAYS * DAY in
  (Main.attempted_batch env f = None →
   ∀ x, ArticleStorage.is_sent x after = ArticleStorage.is_sent x f)
  ∧ (∀ batch,
       Main.attempted_batch env f = Some batch →
       Main.delivery env batch = Ret false →
       (∀ a, a ∈ batch →
          ∃ u, url a = Some u
               ∧ ArticleStorage.is_sent u f = Ret false
               ∧ ArticleStorage.is_sent u after = Ret false)
       ∧ (∀ x, ArticleStorage.is_sent x f = Ret false →
               ArticleStorage.is_sent x after = Ret false)
       ∧ (∀ x r,
            ArticleStorage.stored f !! x = Some r →
            cutoff_date < ArticleStorage.sent_at r →
            Main.cleanup_io env ≠ ArticleStorage.WriteFails →
            ArticleStorage.is_sent x after = Ret true)
       ∧ (∀ x r,
            ArticleStorage.stored f !! x = Some r →
            ArticleStorage.sent_at r <= cutoff_date →
            Main.cleanup_io env = ArticleStorage.WriteOk →
            ArticleStorage.is_sent x after = Ret false)
       ∧ Main.NotMarked ∈ Main.log (Main.main env f).2
       ∧ ∀ l, Main.Tracked l ∉ Main.log (Main.main env f).2).
Proof.
  intros after cutoff_date. split.
  - intros Hnone x. subst after.
    rewrite !is_sent_stored.
    by destruct (main_without_delivery env f Hnone) as [-> _].
  - intros batch Hbatch Hfailed.
    destruct (main_after_delivery env f batch false Hbatch Hfailed)
      as (evs & alert & Hmain).
    pose proof (ensure_storage_exists_stored (Main.init_io env) f) as Hinit.
    set (f1 := (ArticleStorage.ensure_storage_exists (Main.init_io env) f).2)
      in *.
    assert (after = (ArticleStorage.cleanup_old_entries (Main.cleanup_now env)
                       (Main.cleanup_io env) Config.CLEANUP_DAYS f1).2
            ∧ Main.NotMarked ∈ Main.log (Main.main env f).2
            ∧ ∀ l, Main.Tracked l ∉ Main.log (Main.main env f).2)
      as (Hafter & Hlog & Hno).
    { subst after. rewrite Hmain.
      destruct (ArticleStorage.cleanup_old_entries _ _ _ f1) as [[?|?] f3];
        simpl; (split; [done|]); (split; [set_solver|]);
        intros l Hin; set_solver. }
    assert (∀ x, ArticleStorage.is_sent x f = Ret false →
                 ArticleStorage.is_sent x after = Ret false) as Hkeep.
    { intros x. rewrite !is_sent_stored, Hafter, <- Hinit.
      intros [= Hx]. f_equal. apply bool_decide_eq_false in Hx.
      apply bool_decide_eq_false. intros [r Hr]. apply Hx. exists r.
      by eapply cleanup_old_entries_shrinks. }
    split; [|split; [done|split; [|split; [|done]]]].
    + intros a Hin.
      assert (Main.digest_batch env f1 = Ret (Some batch)) as Hdigest.
      { unfold Main.attempted_batch in Hbatch. fold f1 in Hbatch.
        destruct (ArticleStorage.ensure_storage_exists _ f) as [[?|?] f1'];
          [|done]. subst f1. simpl.
        destruct (Main.digest_batch env f1') as [[batch'|]|]; try done.
        destruct (Main.log_details batch'); [|done]. congruence. }
      destruct (digest_batch_unsent env f1 batch a Hdigest Hin)
        as (u & Hu & Hunsent).
      assert (ArticleStorage.is_sent u f = Ret false) as Hbefore.
      { rewrite is_sent_stored in *. by rewrite <- Hinit. }
      exists u. split; [done|]. split; [done|]. by apply Hkeep.
    + intros x r Hx Hfresh Hio. rewrite is_sent_stored, Hafter.
      f_equal. apply bool_decide_eq_true. exists r.
      apply cleanup_old_entries_keeps_fresh; [done| |done].
      by rewrite Hinit.
    + intros x r Hx Hexpired Hio. rewrite is_sent_stored, Hafter, Hio.
      f_equal. apply bool_decide_eq_false. intros [r' Hr'].
      rewrite (cleanup_old_entries_drops_expired _ _ f1 x r) in Hr'; try done.
      by rewrite Hinit.
Qed.

Lemma failed_delivery_commits_nothing_witness :
  let env := Examples.env Examples.transport_down ArticleStorage.WriteOk in
  let f := Examples.old_file in
  ArticleStorage.is_sent "https://example.org/a" f = Ret false
  ∧ ArticleStorage.is_sent "https://example.org/a"
      (Main.file (Main.main env f).2) = Ret false.
Proof.
  intros env f.
  assert (ArticleStorage.is_sent "https://example.org/a" f = Ret false)
    as Hbefore by by vm_compute.
  split; [exact Hbefore|].
  destruct (failed_delivery_commits_nothing env f) as [_ Hfailed].
  destruct (Hfailed Examples.batch) as (_ & Hkeep & _).
  - by vm_compute.
  - by vm_compute.
  - by apply Hkeep.
Defined.

(** C5.  [load_sent_articles] never raises: it returns the store of a
    readable file and the empty store when the file does not decode or
    cannot be read.  [save_sent_articles] raises when the disk fails, and
    so do [mark_multiple_as_sent] and [mark_as_sent] that call it; a run
    whose delivery succeeded and whose commit then fails ends with status
    1 without logging the articles as tracked, and no locator that was not
    sent is sent afterwards. *)
Theorem load_and_save_failures :
  (∀ f, ∃ data,
     ArticleStorage.load_sent_articles f = Ret data
     ∧ (∀ e, ArticleStorage.read_json f = Raise e → data = ∅)
     ∧ (∀ stored_data, ArticleStorage.read_json f = Ret stored_data →
                       data = stored_data))
  ∧ ArticleStorage.read_json ArticleStorage.Corrupt = Raise JSONDecodeError
  ∧ ArticleStorage.load_sent_articles ArticleStorage.Corrupt = Ret ∅
  ∧ (∀ io data f,
       io ≠ ArticleStorage.WriteOk →
       (ArticleStorage.save_sent_articles io data f).1 = Raise OSError
       ∧ ((ArticleStorage.save_sent_articles io data f).2 = f
          ∨ (ArticleStorage.save_sent_articles io data f).2
            = ArticleStorage.Corrupt))
  ∧ (∀ data f,
       ArticleStorage.save_sent_articles ArticleStorage.WriteOk data f
       = (Ret tt, ArticleStorage.Valid data))
  ∧ (∀ now io articles f,
       io ≠ ArticleStorage.WriteOk →
       (ArticleStorage.mark_multiple_as_sent now io articles f).1
       = Raise OSError)
  ∧ (∀ now io a f,
       io ≠ ArticleStorage.WriteOk →
       Py.get (url a) EmptyString ≠ EmptyString →
       (ArticleStorage.mark_as_sent now io a f).1 = Raise OSError)
  ∧ (∀ env f batch,
       Main.attempted_batch env f = Some batch →
       Main.delivery env batch = Ret true →
       Main.mark_io env ≠ ArticleStorage.WriteOk →
       (Main.main env f).1 = 1
       ∧ Main.log (Main.main env f).2 = []
       ∧ ∀ x, ArticleStorage.is_sent x f = Ret false →
              ArticleStorage.is_sent x (Main.file (Main.main env f).2)
              = Ret false).
Proof.
  split; [|split; [done|split; [done|split; [|split; [done|split; [|split]]]]]].
  - intros f. exists (ArticleStorage.stored f).
    split; [apply load_sent_articles_stored|].
    destruct f; split; intros; by simplify_eq/=.
  - intros io data f Hio. rewrite save_sent_articles_outcome.
    destruct io; simpl; [done|by split; [|left]|by split; [|right]].
  - intros now io articles f Hio. rewrite mark_multiple_as_sent_outcome.
    by destruct io.
  - intros now io a f Hio Hurl. unfold ArticleStorage.mark_as_sent.
    unfold mbind, mret, st_bind, st_ret, reading.
    rewrite load_sent_articles_stored.
    apply truthy_nonempty in Hurl. rewrite Hurl. simpl.
    rewrite save_sent_articles_outcome. by destruct io.
  - intros env f batch Hbatch Hdelivered Hio.
    destruct (main_after_delivery env f batch true Hbatch Hdelivered)
      as (evs & alert & ->).
    rewrite mark_multiple_as_sent_outcome.
    pose proof (ensure_storage_exists_stored (Main.init_io env) f) as Hinit.
    destruct (Main.mark_io env); [done| |]; simpl.
    + split; [done|]. split; [done|]. intros x.
      by rewrite !is_sent_stored, Hinit.
    + split; [done|]. split; [done|]. intros x _.
      rewrite is_sent_stored. simpl. by rewrite lookup_empty.
Qed.

(** A run whose delivery succeeds and whose commit cannot open the file:
    status 1, nothing logged as tracked, nothing newly sent. *)
Example commit_failure_run :
  let env := Examples.env Examples.transport_up ArticleStorage.OpenFails in
  let f := Examples.old_file in
  Main.attempted_batch env f = Some Examples.batch
  ∧ Main.delivery env Examples.batch = Ret true
  ∧ (Main.main env f).1 = 1
  ∧ Main.log (Main.main env f).2 = []
  ∧ Main.file (Main.main env f).2 = f.
Proof. by vm_compute. Qed.

(** The same run on a working disk: the batch is committed, and a second
    run finds nothing new. *)
Example successful_run :
  let env := Examples.env Examples.transport_up ArticleStorage.WriteOk in
  let after := Main.file (Main.main env ArticleStorage.Missing).2 in
  (Main.main env ArticleStorage.Missing).1 = 0
  ∧ Main.log (Main.main env ArticleStorage.Missing).2
    = [ Main.Tracked Examples.batch; Main.Completed ]
  ∧ ArticleStorage.is_sent "https://example.org/a" after = Ret true
  ∧ ArticleStorage.is_sent "https://example.org/c" after = Ret true
  ∧ ArticleStorage.is_sent "https://example.org/b" after = Ret false
  ∧ Main.attempted_batch env after = None.
Proof. by vm_compute. Qed.

(* ================================================================== *)
(** * Further properties of the keyword matcher *)
(* ================================================================== *)

Section KeywordStatsFacts.

Import KeywordMatcher Notions.

(** One pass of the inner loop of [get_keyword_stats]. *)
Lemma count_keywords_lookup (stats : gmap string nat) (l : list string) kw :
  foldl (fun (stats : gmap string nat) k =>
           match stats !! k with
           | Some n => <[ k := S n ]> stats
           | None => stats
           end) stats l !! kw
  = (fun n => (n + length (filter (fun k => k = kw) l))%nat) <$> stats !! kw.
Proof.
  revert stats. induction l as [|x l IH]; intros stats; simpl.
  - destruct (stats !! kw); simpl; [f_equal; lia|done].
  - rewrite IH. rewrite filter_cons. destruct (decide (x = kw)) as [->|Hne].
    + destruct (stats !! kw) as [n|] eqn:Hkw; simpl.
      * rewrite lookup_insert_eq. simpl. f_equal. lia.
      * by rewrite Hkw.
    + destruct (stats !! x) as [n|] eqn:Hx; [|done].
      by rewrite lookup_insert_ne.
Qed.

Lemma zero_stats_lookup (kws : list string) kw :
  (list_to_map ((fun k => (k, 0%nat)) <$> kws) : gmap string nat) !! kw
  = if decide (kw ∈ kws) then Some 0%nat else None.
Proof.
  induction kws as [|x kws IH]; csimpl.
  - apply lookup_empty.
  - destruct (decide (x = kw)) as [->|Hne].
    + rewrite lookup_insert_eq.
      destruct (decide (kw ∈ kw :: kws)); [done|set_solver].
    + rewrite lookup_insert_ne by done. rewrite IH.
      destruct (decide (kw ∈ kws)), (decide (kw ∈ x :: kws)); set_solver.
Qed.

(** The outer loop of [get_keyword_stats]. *)
Lemma count_articles_lookup (stats : gmap string nat) articles kw :
  foldl (fun (stats : gmap string nat) article =>
           foldl (fun (stats : gmap string nat) k =>
                    match stats !! k with
                    | Some n => <[ k := S n ]> stats
                    | None => stats
                    end)
                 stats (Py.get (matched_keywords article) []))
        stats articles !! kw
  = (fun n => (n + mentions kw articles)%nat) <$> stats !! kw.
Proof.
  revert stats. induction articles as [|a l IH]; intros stats; simpl.
  - destruct (stats !! kw); simpl; [f_equal; unfold mentions; simpl; lia|done].
  - rewrite IH, count_keywords_lookup. unfold mentions.
    rewrite fmap_cons. simpl.
    destruct (stats !! kw); simpl; [f_equal; lia|done].
Qed.

Lemma count_in_NoDup (l : list string) kw :
  NoDup l →
  length (filter (fun k => k = kw) l) = if decide (kw ∈ l) then 1%nat else 0%nat.
Proof.
  induction 1 as [|x l Hx _ IH].
  - destruct (decide (kw ∈ [])); [set_solver|done].
  - rewrite filter_cons. destruct (decide (x = kw)) as [->|Hne]; simpl;
      rewrite IH;
      destruct (decide (kw ∈ l)), (decide (kw ∈ _ :: l)); set_solver.
Qed.

Lemma mentions_filter_articles kws l kw :
  kw ∈ kws →
  mentions kw (filter_articles (init kws) l)
  = length (List.filter (fun a => search kw (text_of a)) l).
Proof.
  intros Hkw. unfold mentions in *. induction l as [|a l IH]; csimpl; [done|].
  assert (search kw (text_of a) = true ↔ kw ∈ find_matches (init kws) a)
    as Hsearch.
  { rewrite find_matches_spec, search_spec. naive_solver. }
  case_bool_decide as Hne; csimpl.
  - rewrite IH, count_in_NoDup by apply NoDup_elements.
    destruct (search kw (text_of a)) eqn:E; simpl.
    + rewrite decide_True; [done|].
      apply elem_of_elements. by apply Hsearch.
    + rewrite decide_False; [done|].
      rewrite elem_of_elements. intros Hin. by apply Hsearch in Hin.
  - rewrite IH. destruct (search kw (text_of a)) eqn:E; [|done].
    assert (kw ∈ find_matches (init kws) a) by by apply Hsearch.
    set_solver.
Qed.

Lemma filter_articles_app self l1 l2 :
  filter_articles self (l1 ++ l2)
  = filter_articles self l1 ++ filter_articles self l2.
Proof.
  induction l1 as [|a l1 IH]; simpl; [done|].
  case_bool_decide; simpl; by rewrite IH.
Qed.

Lemma find_matches_annotated self a ks :
  find_matches self (set_matched_keywords a ks) = find_matches self a.
Proof. done. Qed.

End KeywordStatsFacts.

(** X1.  [get_keyword_stats] returns a dictionary whose keys are the
    configured keywords; the value at a keyword is the number of times it
    is listed in the [matched_keywords] of the articles, and a keyword
    that is listed but not configured is not counted at all. *)
Theorem get_keyword_stats_counts (self : KeywordMatcher.t)
    (articles : list Article) (kw : string) :
  KeywordMatcher.get_keyword_stats self articles !! kw
  = if decide (kw ∈ KeywordMatcher.keywords self)
    then Some (Notions.mentions kw articles)
    else None.
Proof.
  unfold KeywordMatcher.get_keyword_stats.
  rewrite count_articles_lookup, zero_stats_lookup.
  by destruct (decide (kw ∈ KeywordMatcher.keywords self)).
Qed.

(** X2.  On the articles [filter_articles] returns, [get_keyword_stats]
    gives for every configured keyword the number of input articles in
    whose text the pattern of that keyword finds a match; summing is not
    disturbed by keywords configured twice. *)
Theorem get_keyword_stats_of_filtered (kws : list string)
    (articles : list Article) (kw : string) :
  let self := KeywordMatcher.init kws in
  KeywordMatcher.get_keyword_stats self
    (KeywordMatcher.filter_articles self articles) !! kw
  = if decide (kw ∈ kws)
    then Some (length (List.filter
                         (fun a => KeywordMatcher.search kw
                                     (KeywordMatcher.text_of a))
                         articles))
    else None.
Proof.
  intros self. subst self. unfold KeywordMatcher.get_keyword_stats.
  rewrite count_articles_lookup, zero_stats_lookup.
  cbn [KeywordMatcher.keywords KeywordMatcher.init].
  destruct (decide (kw ∈ kws)); [|done]. simpl.
  by rewrite mentions_filter_articles.
Qed.

(** X3.  Filtering is idempotent and goes through concatenation: the
    articles [filter_articles] returns pass the same filter unchanged,
    with the same annotation, and filtering two lists one after the other
    is filtering their concatenation. *)
Theorem filter_articles_idempotent (self : KeywordMatcher.t)
    (l1 l2 : list Article) :
  KeywordMatcher.filter_articles self
    (KeywordMatcher.filter_articles self l1)
  = KeywordMatcher.filter_articles self l1
  ∧ KeywordMatcher.filter_articles self (l1 ++ l2)
    = KeywordMatcher.filter_articles self l1
      ++ KeywordMatcher.filter_articles self l2.
Proof.
  split; [|apply filter_articles_app].
  induction l1 as [|a l IH]; simpl; [done|].
  case_bool_decide as Hne; [|done]. simpl.
  rewrite find_matches_annotated, bool_decide_true by done.
  by rewrite IH.
Qed.

Section KeywordCaseFacts.

Import KeywordMatcher Notions.

Lemma lower_idempotent c : lower (lower c) = lower c.
Proof. by destruct c as [[] [] [] [] [] [] [] []]. Qed.

Lemma list_ascii_of_lowercase text :
  list_ascii_of_string (lowercase text)
  = lower <$> list_ascii_of_string text.
Proof. unfold lowercase. apply list_ascii_of_string_of_list_ascii. Qed.

Lemma same_ignoring_case_lower l : same_ignoring_case (lower <$> l) l.
Proof.
  unfold same_ignoring_case. rewrite <- list_fmap_compose.
  apply list_fmap_ext. intros i c _. apply lower_idempotent.
Qed.

(** A match is carried over to any keyword and text that differ from the
    given ones by case only. *)
Lemma search_from_same_case kw kw' text text' :
  same_ignoring_case kw kw' →
  same_ignoring_case text text' →
  search_from kw None text = true →
  search_from kw' None text' = true.
Proof.
  unfold same_ignoring_case. intros Hkw Htext.
  rewrite !search_from_spec.
  intros (before & seg & after & -> & Hseg & Hb1 & Hb2).
  rewrite !fmap_app in Htext. symmetry in Htext.
  apply fmap_app_inv in Htext as (before' & rest' & Hbefore & Hrest & ->).
  symmetry in Hrest.
  apply fmap_app_inv in Hrest as (seg' & after' & Hseg' & Hafter & ->).
  exists before', seg', after'. split; [done|].
  split; [unfold same_ignoring_case; congruence|].
  assert (∀ a b : list ascii, lower <$> a = lower <$> b →
            is_word (head a) = is_word (head b)
            ∧ is_word (last a) = is_word (last b)) as Hedges
    by apply same_ignoring_case_edges.
  rewrite !last_or_None in *.
  destruct (Hedges before before' Hbefore) as [_ <-].
  destruct (Hedges (seg ++ after) (seg' ++ after')) as [<- _];
    [rewrite !fmap_app; congruence|].
  destruct (Hedges (before ++ seg) (before' ++ seg')) as [_ <-];
    [rewrite !fmap_app; congruence|].
  by destruct (Hedges after after' Hafter) as [<- _].
Qed.

(** The empty pattern finds a word boundary, which a text has exactly
    when it holds a word character. *)
Lemma boundary_exists (l : list ascii) :
  (∃ c, c ∈ l ∧ is_word_char c = true)
  ↔ ∃ before after,
      l = before ++ after ∧ is_word (last before) ≠ is_word (head after).
Proof.
  split.
  - intros (c & Hin & Hc). induction l as [|x l IH]; [by apply elem_of_nil in Hin|].
    destruct (is_word_char x) eqn:Hx.
    + exists [], (x :: l). split; [done|]. simpl. by rewrite Hx.
    + apply elem_of_cons in Hin as [->|Hin]; [congruence|].
      destruct (IH Hin) as (before & after & -> & Hb).
      exists (x :: before), after. split; [done|].
      destruct before as [|y before]; [simpl in *; by rewrite Hx|].
      by rewrite last_cons_cons.
  - intros (before & after & -> & Hb).
    destruct (is_word (last before)) eqn:Hl.
    + destruct (last before) as [c|] eqn:Hlast; [|done].
      exists c. split; [|done]. apply elem_of_app. left.
      apply last_Some in Hlast as [l' ->]. set_solver.
    + destruct (head after) as [c|] eqn:Hh; [|done].
      exists c. split; [|simpl in Hb; by destruct (is_word_char c)].
      apply elem_of_app. right. destruct after; simplify_eq/=. left.
Qed.

End KeywordCaseFacts.

(** X4.  Matching ignores the case of the keyword and of the text: the
    pattern compiled for a keyword finds a match in a text exactly when
    the pattern compiled for the lower-case keyword finds one in the
    lower-case text. *)
Theorem search_ignores_case (kw text : string) :
  KeywordMatcher.search kw text
  = KeywordMatcher.search (Notions.lowercase kw) (Notions.lowercase text).
Proof.
  unfold KeywordMatcher.search. rewrite !list_ascii_of_lowercase.
  set (k := list_ascii_of_string kw). set (t := list_ascii_of_string text).
  destruct (KeywordMatcher.search_from k None t) eqn:E1;
    destruct (KeywordMatcher.search_from (KeywordMatcher.lower <$> k) None
                (KeywordMatcher.lower <$> t)) eqn:E2; try done.
  - rewrite <- E2. symmetry.
    apply (search_from_same_case k (KeywordMatcher.lower <$> k)
             t (KeywordMatcher.lower <$> t)); [| |done];
      unfold KeywordMatcher.same_ignoring_case; symmetry;
      apply same_ignoring_case_lower.
  - rewrite <- E1.
    apply (search_from_same_case (KeywordMatcher.lower <$> k) k
             (KeywordMatcher.lower <$> t) t); [| |done];
      apply same_ignoring_case_lower.
Qed.

(** X5.  The empty keyword is compiled to two word boundaries in a row:
    among the texts made of ASCII characters it matches those that hold a
    letter, a digit or an underscore, and no other; so a keyword list
    that holds the empty string lets every article with such a title or
    description through the filter. *)
Theorem empty_keyword_matches_any_word (text : string) :
  KeywordMatcher.ascii_only text →
  (KeywordMatcher.search EmptyString text = true ↔ Notions.has_word_char text)
  ∧ (∀ kws a,
       EmptyString ∈ kws →
       KeywordMatcher.ascii_only (KeywordMatcher.text_of a) →
       Notions.has_word_char (KeywordMatcher.text_of a) →
       ∃ ks, KeywordMatcher.filter_articles (KeywordMatcher.init kws) [a]
             = [set_matched_keywords a ks]
             ∧ EmptyString ∈ ks).
Proof.
  intros _.
  assert (∀ t, KeywordMatcher.search EmptyString t = true
               ↔ Notions.has_word_char t) as Hempty.
  { intros t. rewrite search_spec.
    unfold KeywordMatcher.occurs_whole_word, Notions.has_word_char,
      KeywordMatcher.word_boundary, KeywordMatcher.same_ignoring_case.
    rewrite boundary_exists. simpl. split.
    - intros (before & seg & after & Ht & Hseg & Hb1 & _).
      apply fmap_nil_inv in Hseg as ->. by exists before, after.
    - intros (before & after & Ht & Hb). exists before, [], after.
      rewrite app_nil_r. by repeat split. }
  split; [apply Hempty|].
  intros kws a Hin _ Hword. simpl.
  assert (EmptyString ∈ KeywordMatcher.find_matches (KeywordMatcher.init kws) a)
    as Hmatch.
  { apply find_matches_spec. split; [done|].
    apply search_spec. by apply Hempty. }
  rewrite bool_decide_true by set_solver.
  eexists. split; [done|]. by apply elem_of_elements.
Qed.

Lemma empty_keyword_matches_any_word_witness :
  KeywordMatcher.search EmptyString "AI agents" = true
  ↔ Notions.has_word_char "AI agents".
Proof.
  destruct (empty_keyword_matches_any_word "AI agents") as [Hiff _].
  - reflexivity.
  - exact Hiff.
Defined.

(* ================================================================== *)
(** * Further properties of the fetchers *)
(* ================================================================== *)

Section FetcherFacts.

Import NewsFetcher.

(** A loop that appends what passes a test is a filter. *)
Lemma foldl_snoc_filter {A B} (f : A → option B) (keep : B → bool)
    (acc : list B) (l : list A) :
  foldl (fun acc x =>
           match f x with
           | Some y => if keep y then acc ++ [y] else acc
           | None => acc
           end) acc l
  = acc ++ List.filter keep (omap f l).
Proof.
  revert acc. induction l as [|x l IH]; intros acc; simpl.
  - by rewrite app_nil_r.
  - rewrite IH. destruct (f x) as [y|]; simpl; [|done].
    destruct (keep y); [|done]. by rewrite <- app_assoc.
Qed.

Lemma fetch_feed_filter w feed_url name hours :
  fetch_feed w feed_url name hours
  = match feed w feed_url with
    | Raise _ => []
    | Ret entries =>
        List.filter (fun a => now w - hours * HOUR <=? published a)
          (omap (fun entry => _normalize_entry w entry name) entries)
    end.
Proof.
  unfold fetch_feed. destruct (feed w feed_url) as [entries|]; [|done].
  by rewrite (foldl_snoc_filter (fun entry => _normalize_entry w entry name)
                (fun a => now w - hours * HOUR <=? published a)).
Qed.

Lemma fetch_articles_omap w kws hours response :
  get_everything w (build_query kws) (now w - hours * HOUR) = Ret response →
  status response = "ok" →
  fetch_articles w (Some tt) kws hours
  = omap (_normalize_article w) (articles response).
Proof.
  intros Hresponse Hok. unfold fetch_articles.
  rewrite Hresponse, Hok. simpl.
  enough (∀ acc,
            foldl (fun articles article_data =>
                     match _normalize_article w article_data with
                     | Some article => articles ++ [article]
                     | None => articles
                     end) acc (articles response)
            = acc ++ omap (_normalize_article w) (articles response)) as H
    by apply (H []).
  induction (articles response) as [|d l IH]; intros acc; simpl.
  - by rewrite app_nil_r.
  - rewrite IH. destruct (_normalize_article w d); simpl; [|done].
    by rewrite <- app_assoc.
Qed.

Lemma _normalize_entry_Some w entry name a :
  _normalize_entry w entry name = Some a →
  ∃ u, link entry = Some u ∧ u ≠ EmptyString
       ∧ url a = Some u
       ∧ title a = Some (Py.get (entry_title entry) "Untitled")
       ∧ source a = name
       ∧ matched_keywords a = None
       ∧ published a
         = published_or_now w
             (Py.str_or (Py.get (entry_published entry) EmptyString)
                        (Py.get (updated entry) EmptyString)).
Proof.
  unfold _normalize_entry.
  destruct (link entry) as [u|]; simpl; [|done].
  destruct u as [|c u]; simpl; [done|].
  intros [= <-]. by exists (String c u).
Qed.

Lemma bind_app_skip {A B} (f : A → list B) (l1 l2 : list A) x :
  f x = [] → (l1 ++ x :: l2) ≫= f = (l1 ++ l2) ≫= f.
Proof.
  intros Hx. rewrite !bind_app, bind_cons, Hx. done.
Qed.

End FetcherFacts.

Section RawRecordFacts.

Import NewsFetcher.

(** A record that is retained keeps its locator, which is not empty. *)
Lemma retained_locator w hours r a :
  retained w hours r = Some a →
  normal_form w r = Some a
  ∧ url a = Some (raw_locator r)
  ∧ raw_locator r ≠ EmptyString.
Proof.
  unfold retained.
  destruct (normal_form w r) as [b|] eqn:Hnorm; [|done].
  destruct (in_window w hours r b); [|done]. intros [= ->].
  split; [done|]. destruct r as [name entry|data]; simpl in *.
  - destruct (_normalize_entry_Some _ _ _ _ Hnorm) as (u & Hlink & Hu & Hurl & _).
    rewrite Hlink. simpl. by split.
  - revert Hnorm. unfold _normalize_article.
    destruct (api_url data) as [u|]; simpl; [|done].
    destruct u as [|c u]; simpl; [done|]. intros [= <-]. by split.
Qed.

Lemma omap_filter_option {A B} (g : A → option B) (keep : B → bool) l :
  omap (fun x => match g x with
                 | Some y => if keep y then Some y else None
                 | None => None
                 end) l
  = List.filter keep (omap g l).
Proof.
  induction l as [|x l IH]; csimpl; [done|].
  destruct (g x) as [y|]; csimpl; [|done].
  destruct (keep y); csimpl; by rewrite IH.
Qed.

(** What a feed contributes is what is retained of its raw entries. *)
Lemma fetch_feed_retained w feed_url name hours :
  fetch_feed w feed_url name hours
  = omap (retained w hours)
      match feed w feed_url with
      | Ret entries => FeedEntry name <$> entries
      | Raise _ => []
      end.
Proof.
  rewrite fetch_feed_filter.
  destruct (feed w feed_url) as [entries|]; [|done].
  rewrite <- (omap_filter_option
                (fun entry => _normalize_entry w entry name)
                (fun a => now w - hours * HOUR <=? published a)).
  induction entries as [|e l IH]; csimpl; [done|].
  unfold retained at 1. simpl. rewrite IH.
  by destruct (_normalize_entry w e name).
Qed.

Lemma fetch_articles_retained w client kws hours :
  fetch_articles w client kws hours
  = omap (retained w hours)
      match client with
      | None => []
      | Some _ =>
          match get_everything w (build_query kws) (now w - hours * HOUR) with
          | Ret response =>
              if String.eqb (status response) "ok"
              then ApiHit <$> articles response
              else []
          | Raise _ => []
          end
      end.
Proof.
  destruct client as [[]|]; [|done].
  destruct (get_everything w (build_query kws) (now w - hours * HOUR))
    as [response|e] eqn:Hanswer.
  2:{ unfold fetch_articles. by rewrite Hanswer. }
  destruct (String.eqb_spec (status response) "ok") as [Hok|Hother].
  2:{ unfold fetch_articles. rewrite Hanswer.
      by rewrite (proj2 (String.eqb_neq _ _) Hother). }
  rewrite (fetch_articles_omap _ _ _ _ Hanswer Hok).
  induction (articles response) as [|d l IH]; csimpl; [done|].
  unfold retained at 1. simpl. rewrite IH.
  by destruct (_normalize_article w d).
Qed.

(** The combined list is what is retained of the raw records, in their
    order. *)
Lemma collect_retained w self kws hours :
  collect w self kws hours
  = omap (retained w hours) (raw_records w self kws hours).
Proof.
  rewrite collect_order. unfold raw_records. rewrite omap_app.
  f_equal; [|apply fetch_articles_retained].
  induction (rss_feeds self) as [|[name feed_url] l IH]; csimpl; [done|].
  by rewrite omap_app, IH, fetch_feed_retained.
Qed.

(** Selecting a locator before or after normalization is the same. *)
Lemma filter_retained w hours u l :
  List.filter (has_url u) (omap (retained w hours) l)
  = omap (retained w hours)
      (List.filter (fun r => bool_decide (raw_locator r = u)) l).
Proof.
  induction l as [|r l IH]; csimpl; [done|].
  destruct (retained w hours r) as [a|] eqn:Hr; csimpl.
  - destruct (retained_locator _ _ _ _ Hr) as (_ & Hurl & _).
    unfold has_url at 1. rewrite Hurl.
    destruct (decide (raw_locator r = u)) as [Hu|Hu].
    + rewrite !bool_decide_true by congruence. csimpl. by rewrite Hr, IH.
    + rewrite !bool_decide_false by congruence. done.
  - case_bool_decide; csimpl; [by rewrite Hr|done].
Qed.

Lemma first_seen_sublist seen todo : first_seen seen todo `sublist_of` todo.
Proof.
  revert seen. induction todo as [|x l IH]; intros seen; simpl; [done|].
  destruct (url x); [case_bool_decide|].
  - by apply sublist_skip.
  - by apply sublist_cons.
  - by apply sublist_cons.
Qed.

(** The first retained record with a locator, when there is one. *)
Lemma first_retained w hours u l r :
  r ∈ l → raw_locator r = u → is_Some (retained w hours r) →
  ∃ before first_raw after first,
    l = before ++ first_raw :: after
    ∧ (∀ x, x ∈ before → raw_locator x = u → retained w hours x = None)
    ∧ raw_locator first_raw = u
    ∧ retained w hours first_raw = Some first
    ∧ take 1
        (omap (retained w hours)
           (List.filter (fun r => bool_decide (raw_locator r = u)) l))
      = [first].
Proof.
  intros Hin Hu Hr. induction l as [|x l IH]; [by apply elem_of_nil in Hin|].
  destruct (decide (raw_locator x = u)) as [Hx|Hx];
    [destruct (retained w hours x) as [b|] eqn:Hkept|].
  - exists [], x, l, b. split; [done|].
    split; [by intros y ?%elem_of_nil|]. split; [done|]. split; [done|].
    simpl. rewrite bool_decide_true by done. csimpl. by rewrite Hkept.
  - apply elem_of_cons in Hin as [->|Hin].
    { rewrite Hkept in Hr. by destruct Hr. }
    destruct (IH Hin) as (before & first_raw & after & first
                          & -> & Hbefore & Hfirst & Hnorm & Htake).
    exists (x :: before), first_raw, after, first. split; [done|].
    split; [|split; [done|split; [done|]]].
    + intros y [->|Hy]%elem_of_cons; [done|by apply Hbefore].
    + simpl. rewrite bool_decide_true by done. csimpl. by rewrite Hkept.
  - apply elem_of_cons in Hin as [->|Hin]; [done|].
    destruct (IH Hin) as (before & first_raw & after & first
                          & -> & Hbefore & Hfirst & Hnorm & Htake).
    exists (x :: before), first_raw, after, first. split; [done|].
    split; [|split; [done|split; [done|]]].
    + intros y [->|Hy]%elem_of_cons; [done|by apply Hbefore].
    + simpl. by rewrite bool_decide_false by done.
Qed.

End RawRecordFacts.

(** C1.  [fetch_all_articles] always returns a list, and for every
    locator that list holds at most one article carrying it: the
    normalized form of the first raw record with that locator that is
    retained, in the order the raw records are processed (the entries of
    every RSS feed in source-list order, then the hits of the search API).
    A raw record is retained when it has a non-empty locator and, for a
    feed entry, a publication date inside the look-back window; so the
    list holds exactly one article with a locator whenever a raw record
    with it is retained, once, twice or more, and none when no raw record
    with it is retained.  The list keeps the order of the first retained
    occurrences. *)
Theorem fetch_all_articles_dedup (w : NewsFetcher.World) (self : NewsFetcher.t)
    (keywords : list string) (hours_ago : Z) :
  let raw := NewsFetcher.raw_records w self keywords hours_ago in
  let kept := omap (NewsFetcher.retained w hours_ago) raw in
  ∃ unique_articles,
    NewsFetcher.fetch_all_articles w self keywords hours_ago
    = Ret unique_articles
    ∧ NewsFetcher.collect w self keywords hours_ago = kept
    ∧ (∀ r a,
         NewsFetcher.retained w hours_ago r = Some a →
         NewsFetcher.normal_form w r = Some a
         ∧ url a = Some (NewsFetcher.raw_locator r)
         ∧ NewsFetcher.raw_locator r ≠ EmptyString)
    ∧ (∀ u,
         List.filter (NewsFetcher.has_url u) unique_articles
         = take 1
             (omap (NewsFetcher.retained w hours_ago)
                (List.filter
                   (fun r => bool_decide (NewsFetcher.raw_locator r = u))
                   raw)))
    ∧ (∀ u r,
         r ∈ raw → NewsFetcher.raw_locator r = u →
         is_Some (NewsFetcher.retained w hours_ago r) →
         ∃ before first_raw after first,
           raw = before ++ first_raw :: after
           ∧ (∀ x, x ∈ before → NewsFetcher.raw_locator x = u →
                   NewsFetcher.retained w hours_ago x = None)
           ∧ NewsFetcher.raw_locator first_raw = u
           ∧ NewsFetcher.normal_form w first_raw = Some first
           ∧ List.filter (NewsFetcher.has_url u) unique_articles = [first])
    ∧ (∀ u,
         (∀ r, r ∈ raw → NewsFetcher.raw_locator r = u →
               NewsFetcher.retained w hours_ago r = None) →
         List.filter (NewsFetcher.has_url u) unique_articles = [])
    ∧ unique_articles `sublist_of` kept
    ∧ ∀ (i j : nat) a b,
        unique_articles !! i = Some a →
        unique_articles !! j = Some b →
        (i < j)%nat →
        ∃ ua ub ia ib,
          url a = Some ua ∧ url b = Some ub
          ∧ NewsFetcher.first_index ua kept = Some ia
          ∧ NewsFetcher.first_index ub kept = Some ib
          ∧ (ia < ib)%nat.
Proof.
  intros raw kept.
  pose proof (collect_retained w self keywords hours_ago) as Hcollect.
  fold raw in Hcollect. fold kept in Hcollect.
  exists (NewsFetcher.first_seen ∅ kept).
  assert (∀ u,
            List.filter (NewsFetcher.has_url u) (NewsFetcher.first_seen ∅ kept)
            = take 1
                (omap (NewsFetcher.retained w hours_ago)
                   (List.filter
                      (fun r => bool_decide (NewsFetcher.raw_locator r = u))
                      raw))) as Hone.
  { intros u. rewrite first_seen_filter, bool_decide_false by set_solver.
    unfold kept. by rewrite filter_retained. }
  split.
  { unfold NewsFetcher.fetch_all_articles. rewrite Hcollect.
    apply dedup_loop_first_seen. rewrite <- Hcollect. apply collect_url. }
  split; [done|]. split; [apply retained_locator|]. split; [done|].
  split; [|split; [|split; [apply first_seen_sublist|apply first_seen_order]]].
  - intros u r Hin Hu Hr. rewrite Hone.
    destruct (first_retained w hours_ago u raw r Hin Hu Hr)
      as (before & first_raw & after & first
          & Hraw & Hbefore & Hfirst & Hkept & Htake).
    exists before, first_raw, after, first.
    split; [done|]. split; [done|]. split; [done|]. split; [|done].
    by destruct (retained_locator _ _ _ _ Hkept).
  - intros u Hnone. rewrite Hone.
    assert (∀ x, x ∈ List.filter
                       (fun r => bool_decide (NewsFetcher.raw_locator r = u))
                       raw →
                 NewsFetcher.retained w hours_ago x = None) as Hsub.
    { intros x [Hx Hux]%list_elem_of_In%filter_In.
      apply Hnone; [by apply list_elem_of_In|].
      by apply bool_decide_eq_true in Hux. }
    induction (List.filter _ raw) as [|x l IH]; [done|].
    csimpl. rewrite (Hsub x) by left. apply IH.
    intros y Hy. apply Hsub. by right.
Qed.

(** Two raw entries with the same locator, both published before the
    look-back window: neither is retained, and the list returned holds
    no article with that locator. *)
Lemma stale_duplicates_leave_no_article :
  NewsFetcher.raw_locator
    <$> NewsFetcher.raw_records Examples.twice_stale_world Examples.fetcher
          Config.KEYWORDS Config.FETCH_WINDOW_HOURS
  = [ "https://example.org/old"; "https://example.org/old" ]
  ∧ NewsFetcher.fetch_all_articles Examples.twice_stale_world
      Examples.fetcher Config.KEYWORDS Config.FETCH_WINDOW_HOURS
    = Ret [].
Proof. by vm_compute. Qed.

(** X6.  [fetch_feed] returns, in the order of the feed, the normalized
    forms of the entries that have a link and whose publication date is
    not before now minus the look-back window; every article it returns
    carries the name of the source, a non-empty locator and a title, and
    was published inside the window; a feed whose fetch raises gives the
    empty list. *)
Theorem fetch_feed_window (w : NewsFetcher.World) (feed_url name : string)
    (hours_ago : Z) :
  let cutoff_time := NewsFetcher.now w - hours_ago * HOUR in
  NewsFetcher.fetch_feed w feed_url name hours_ago
  = match NewsFetcher.feed w feed_url with
    | Raise _ => []
    | Ret entries =>
        List.filter (fun a => cutoff_time <=? published a)
          (omap (fun entry => NewsFetcher._normalize_entry w entry name)
                entries)
    end
  ∧ ∀ a, a ∈ NewsFetcher.fetch_feed w feed_url name hours_ago →
      cutoff_time <= published a
      ∧ source a = name
      ∧ is_Some (title a)
      ∧ matched_keywords a = None
      ∧ ∃ u, url a = Some u ∧ u ≠ EmptyString.
Proof.
  intros cutoff_time. split; [apply fetch_feed_filter|].
  intros a. rewrite fetch_feed_filter.
  destruct (NewsFetcher.feed w feed_url) as [entries|];
    [|by intros ?%elem_of_nil].
  rewrite list_elem_of_In, filter_In, <- list_elem_of_In, list_elem_of_omap.
  intros [(entry & _ & Hnorm) Hfresh].
  apply _normalize_entry_Some in Hnorm
    as (u & _ & Hne & Hu & Ht & Hs & Hm & _).
  split; [by apply Z.leb_le|]. split; [done|].
  split; [by rewrite Ht|]. split; [done|]. by exists u.
Qed.

(** X7.  An entry that has a link but no usable date (no [published] or
    [updated] string, or one the date parser rejects) is stamped with the
    time of the fetch, so with a look-back window that is not negative it
    is never dropped as too old. *)
Theorem undated_entry_is_fresh (w : NewsFetcher.World)
    (feed_url name : string) (hours_ago : Z)
    (entries : list NewsFetcher.RssEntry) (entry : NewsFetcher.RssEntry) :
  let pub_date_str :=
    Py.str_or (Py.get (NewsFetcher.entry_published entry) EmptyString)
              (Py.get (NewsFetcher.updated entry) EmptyString) in
  NewsFetcher.feed w feed_url = Ret entries →
  entry ∈ entries →
  Py.get (NewsFetcher.link entry) EmptyString ≠ EmptyString →
  pub_date_str = EmptyString ∨ NewsFetcher.parse_date w pub_date_str = None →
  0 <= hours_ago →
  ∃ a, NewsFetcher._normalize_entry w entry name = Some a
       ∧ published a = NewsFetcher.now w
       ∧ a ∈ NewsFetcher.fetch_feed w feed_url name hours_ago.
Proof.
  intros pub_date_str Hfeed Hin Hlink Hdate Hhours.
  destruct (NewsFetcher._normalize_entry w entry name) as [a|] eqn:Hnorm.
  2:{ unfold NewsFetcher._normalize_entry in Hnorm.
      apply truthy_nonempty in Hlink. by rewrite Hlink in Hnorm. }
  destruct (_normalize_entry_Some _ _ _ _ Hnorm)
    as (u & _ & _ & _ & _ & _ & _ & Hpub).
  fold pub_date_str in Hpub.
  assert (published a = NewsFetcher.now w) as Hnow.
  { rewrite Hpub. unfold NewsFetcher.published_or_now.
    destruct Hdate as [-> | Hparse]; [done|].
    rewrite Hparse. by destruct (Py.truthy pub_date_str). }
  exists a. split; [done|]. split; [done|].
  rewrite fetch_feed_filter, Hfeed.
  rewrite list_elem_of_In, filter_In, <- list_elem_of_In, list_elem_of_omap.
  split; [by exists entry|]. apply Z.leb_le. rewrite Hnow. unfold HOUR. lia.
Qed.

Lemma undated_entry_is_fresh_witness :
  ∃ a, a ∈ NewsFetcher.fetch_feed Examples.world
             "https://venturebeat.com/feed/" "VentureBeat"
             Config.FETCH_WINDOW_HOURS
       ∧ published a = NewsFetcher.now Examples.world.
Proof.
  destruct (undated_entry_is_fresh Examples.world
              "https://venturebeat.com/feed/" "VentureBeat"
              Config.FETCH_WINDOW_HOURS
              [ Examples.entry "https://example.org/a" "OpenAI ships";
                Examples.entry "https://example.org/a"
                  "OpenAI ships (updated)" ]
              (Examples.entry "https://example.org/a" "OpenAI ships"))
    as (a & _ & Hnow & Hin).
  - reflexivity.
  - apply list_elem_of_here.
  - discriminate.
  - by left.
  - by vm_compute.
  - by exists a.
Defined.

(** X8.  A source that fails contributes nothing and disturbs no other
    source.  Removing from the source list a feed whose fetch raises (a
    timeout or any other exception) changes neither the list collected
    nor the result of [fetch_all_articles]; and when the search API is
    not configured, raises or answers with a status other than ["ok"],
    what is collected is what the RSS feeds gave. *)
Theorem failing_source_is_skipped (w : NewsFetcher.World)
    (keywords : list string) (hours_ago : Z) :
  (∀ l1 l2 source_name feed_url client e,
     NewsFetcher.feed w feed_url = Raise e →
     let self :=
       {| NewsFetcher.rss_feeds := l1 ++ (source_name, feed_url) :: l2;
          NewsFetcher.newsapi_client := client |} in
     let without :=
       {| NewsFetcher.rss_feeds := l1 ++ l2;
          NewsFetcher.newsapi_client := client |} in
     NewsFetcher.collect w self keywords hours_ago
     = NewsFetcher.collect w without keywords hours_ago
     ∧ NewsFetcher.fetch_all_articles w self keywords hours_ago
       = NewsFetcher.fetch_all_articles w without keywords hours_ago)
  ∧ (∀ rss_feeds newsapi_key,
       let self := NewsFetcher.init rss_feeds newsapi_key in
       let rss_only :=
         rss_feeds
           ≫= fun '(source_name, feed_url) =>
                 NewsFetcher.fetch_feed w feed_url source_name hours_ago in
       let answer :=
         NewsFetcher.get_everything w (NewsFetcher.build_query keywords)
           (NewsFetcher.now w - hours_ago * HOUR) in
       newsapi_key = EmptyString
       ∨ (∃ e, answer = Raise e)
       ∨ (∃ response, answer = Ret response
                      ∧ NewsFetcher.status response ≠ "ok") →
       NewsFetcher.collect w self keywords hours_ago = rss_only).
Proof.
  split.
  - intros l1 l2 source_name feed_url client e Hfeed self without.
    assert (NewsFetcher.collect w self keywords hours_ago
            = NewsFetcher.collect w without keywords hours_ago) as Hcollect.
    { rewrite !collect_order. f_equal. simpl.
      apply (bind_app_skip
               (fun '(source_name, feed_url) =>
                  NewsFetcher.fetch_feed w feed_url source_name hours_ago)
               l1 l2 (source_name, feed_url)).
      unfold NewsFetcher.fetch_feed. by rewrite Hfeed. }
    split; [done|]. unfold NewsFetcher.fetch_all_articles. by rewrite Hcollect.
  - intros rss_feeds newsapi_key self rss_only answer Hfail.
    rewrite collect_order. fold rss_only.
    transitivity (rss_only ++ []); [|apply app_nil_r]. f_equal.
    subst self. unfold NewsFetcher.init, NewsFetcher.fetch_articles. simpl.
    destruct (Py.truthy newsapi_key) eqn:Hkey; [|done].
    fold answer.
    destruct Hfail as [-> | [[e ->] | (response & -> & Hstatus)]]; try done.
    apply String.eqb_neq in Hstatus. by rewrite Hstatus.
Qed.

(** X9.  The look-back window is applied to RSS entries only: when the
    search API answers with status ["ok"], every hit that has a locator is
    returned in normalized form, in the order of the answer, whatever its
    publication date. *)
Theorem api_hits_are_not_filtered_by_date (w : NewsFetcher.World)
    (keywords : list string) (hours_ago : Z)
    (response : NewsFetcher.ApiResponse) :
  NewsFetcher.get_everything w (NewsFetcher.build_query keywords)
    (NewsFetcher.now w - hours_ago * HOUR) = Ret response →
  NewsFetcher.status response = "ok" →
  NewsFetcher.fetch_articles w (Some tt) keywords hours_ago
  = omap (NewsFetcher._normalize_article w) (NewsFetcher.articles response)
  ∧ ∀ hit u,
      hit ∈ NewsFetcher.articles response →
      NewsFetcher.api_url hit = Some u → u ≠ EmptyString →
      ∃ a, a ∈ NewsFetcher.fetch_articles w (Some tt) keywords hours_ago
           ∧ url a = Some u
           ∧ published a
             = NewsFetcher.published_or_now w
                 (Py.get (NewsFetcher.publishedAt hit) EmptyString).
Proof.
  intros Hanswer Hok.
  rewrite (fetch_articles_omap w keywords hours_ago response Hanswer Hok).
  split; [done|]. intros hit u Hin Hu Hne.
  eexists. split.
  - apply list_elem_of_omap. exists hit. split; [done|].
    unfold NewsFetcher._normalize_article. rewrite Hu. simpl.
    by rewrite (proj2 (truthy_nonempty u) Hne).
  - done.
Qed.

Lemma api_hits_are_not_filtered_by_date_witness :
  NewsFetcher.fetch_feed Notions.stale_world "https://venturebeat.com/feed/"
    "VentureBeat" Config.FETCH_WINDOW_HOURS = []
  ∧ ∃ a, a ∈ NewsFetcher.fetch_articles Notions.stale_world (Some tt)
               Config.KEYWORDS Config.FETCH_WINDOW_HOURS
         ∧ url a = Some "https://example.org/api"
         ∧ published a = 0.
Proof.
  split; [reflexivity|].
  destruct (api_hits_are_not_filtered_by_date Notions.stale_world
              Config.KEYWORDS Config.FETCH_WINDOW_HOURS
              {| NewsFetcher.status := "ok";
                 NewsFetcher.articles := [ Notions.stale_hit ] |}
              eq_refl eq_refl) as [_ Hhits].
  destruct (Hhits Notions.stale_hit "https://example.org/api")
    as (a & Hin & Hu & Hpub).
  - apply list_elem_of_here.
  - reflexivity.
  - discriminate.
  - by exists a.
Defined.

(* ================================================================== *)
(** * Further properties of the notification tracker *)
(* ================================================================== *)

Section TrackerFacts.

Import ArticleStorage.

Local Ltac run_storage :=
  unfold mbind, mret, st_bind, st_ret, py_bind, py_ret, Py.bind, reading.

Lemma mark_as_sent_outcome now io article f :
  let u := Py.get (url article) EmptyString in
  mark_as_sent now io article f
  = if Py.truthy u then
      match io with
      | WriteOk =>
          (Ret tt,
           Valid (<[ u := {| sent_at := now;
                             rec_title := Py.get (title article) EmptyString;
                             rec_url := u |} ]> (stored f)))
      | OpenFails => (Raise OSError, f)
      | WriteFails => (Raise OSError, Corrupt)
      end
    else (Ret tt, f).
Proof.
  intros u. unfold mark_as_sent. run_storage.
  rewrite load_sent_articles_stored. fold u.
  destruct (Py.truthy u); simpl; [|done].
  rewrite save_sent_articles_outcome. by destruct io.
Qed.

(** What a successful pruning leaves. *)
Lemma cleanup_old_entries_stored now days f :
  stored (cleanup_old_entries now WriteOk days f).2
  = filter (fresh (now - days * DAY)) (stored f).
Proof.
  rewrite cleanup_old_entries_outcome.
  destruct (Z.eqb_spec
              (Z.of_nat (size (filter (expired (now - days * DAY)) (stored f))))
              0) as [Hzero|_]; simpl; [|done].
  symmetry. apply map_filter_id. intros k r Hk.
  assert (filter (expired (now - days * DAY)) (stored f) = ∅) as Hempty
    by (apply map_size_empty_iff; lia).
  unfold fresh. simpl.
  destruct (decide (sent_at r <= now - days * DAY)) as [Hexp|]; [|lia].
  assert (filter (expired (now - days * DAY)) (stored f) !! k = Some r) as Hin
    by by apply map_lookup_filter_Some.
  by rewrite Hempty, lookup_empty in Hin.
Qed.

Lemma cleanup_old_entries_count now days f :
  (cleanup_old_entries now WriteOk days f).1
  = Ret (Z.of_nat (size (filter (expired (now - days * DAY)) (stored f)))).
Proof.
  rewrite cleanup_old_entries_outcome.
  by destruct (Z.eqb_spec
                 (Z.of_nat (size (filter (expired (now - days * DAY))
                                    (stored f)))) 0) as [->|_].
Qed.

(** What [get_stats] reports, in terms of the store. *)
Lemma get_stats_spec f stats :
  get_stats f = Ret stats →
  total stats = Some (Z.of_nat (size (stored f)))
  ∧ (∀ lo, oldest stats = Some lo →
       (∃ k r, stored f !! k = Some r ∧ sent_at r = lo)
       ∧ ∀ k r, stored f !! k = Some r → lo <= sent_at r)
  ∧ (∀ hi, newest stats = Some hi →
       (∃ k r, stored f !! k = Some r ∧ sent_at r = hi)
       ∧ ∀ k r, stored f !! k = Some r → sent_at r <= hi)
  ∧ (stored f = ∅ ↔ oldest stats = None)
  ∧ (stored f = ∅ ↔ newest stats = None).
Proof.
  unfold get_stats. rewrite load_sent_articles_stored.
  unfold mbind, py_bind, Py.bind. case_bool_decide as Hempty.
  - intros [= <-]. simpl. rewrite Hempty, map_size_empty.
    repeat split; done.
  - pose proof (elem_of_dates (stored f)) as Hdates.
    destruct (map_to_list (stored f)) as [|[k0 r0] l] eqn:Hlist.
    { by apply map_to_list_empty_iff in Hlist. }
    simpl. intros [= <-]. simpl.
    set (dates := (fun entry : string * SentRecord => sent_at entry.2) <$> l)
      in *.
    destruct (foldl_min_spec (sent_at r0) dates) as [Hlo Hmin].
    destruct (foldl_max_spec (sent_at r0) dates) as [Hhi Hmax].
    rewrite Forall_forall in Hmin, Hmax.
    split. { by rewrite <- length_map_to_list, Hlist. }
    split.
    { intros lo [= <-]. split; [by apply Hdates|].
      intros k r Hk. apply Hmin, Hdates. by exists k, r. }
    split.
    { intros hi [= <-]. split; [by apply Hdates|].
      intros k r Hk. apply Hmax, Hdates. by exists k, r. }
    split; (split; [done|intros [=]]).
Qed.

End TrackerFacts.

(** X10.  [mark_as_sent] followed by [is_sent]: when the article has a
    locator and the disk works, the locator is sent afterwards and holds
    the record stamped with the time of the call and the title, whether or
    not it was sent before (the old record is overwritten, so the store
    grows by one only for a new locator), and every other locator is as
    it was.  For an article without a locator nothing is written, and
    nothing fails even on a disk that does not work. *)
Theorem mark_as_sent_round_trip (now : Z) (io : ArticleStorage.write_outcome)
    (article : Article) (f : ArticleStorage.file_state) :
  let u := Py.get (url article) EmptyString in
  let after := (ArticleStorage.mark_as_sent now io article f).2 in
  (u = EmptyString →
   ArticleStorage.mark_as_sent now io article f = (Ret tt, f))
  ∧ (u ≠ EmptyString → io = ArticleStorage.WriteOk →
     (ArticleStorage.mark_as_sent now io article f).1 = Ret tt
     ∧ ArticleStorage.is_sent u after = Ret true
     ∧ ArticleStorage.stored after !! u
       = Some {| ArticleStorage.sent_at := now;
                 ArticleStorage.rec_title := Py.get (title article) EmptyString;
                 ArticleStorage.rec_url := u |}
     ∧ (∀ x, x ≠ u →
          ArticleStorage.stored after !! x = ArticleStorage.stored f !! x
          ∧ ArticleStorage.is_sent x after = ArticleStorage.is_sent x f)
     ∧ size (ArticleStorage.stored after)
       = if decide (is_Some (ArticleStorage.stored f !! u))
         then size (ArticleStorage.stored f)
         else S (size (ArticleStorage.stored f))).
Proof.
  intros u after. subst after. rewrite mark_as_sent_outcome. fold u. split.
  - intros ->. done.
  - intros Hu ->. rewrite (proj2 (truthy_nonempty u) Hu). simpl.
    split; [done|]. split.
    { rewrite is_sent_stored. simpl. by rewrite lookup_insert_eq. }
    split; [apply lookup_insert_eq|]. split.
    { intros x Hx. rewrite !is_sent_stored. simpl.
      by rewrite lookup_insert_ne. }
    destruct (decide (is_Some (ArticleStorage.stored f !! u))) as [[r Hr]|Hnew].
    + apply map_size_insert_Some. by exists r.
    + apply map_size_insert_None.
      destruct (ArticleStorage.stored f !! u) eqn:E; [|done].
      by destruct Hnew.
Qed.

(** X11.  The two ways of marking agree and compose: on an article with a
    locator [mark_as_sent] does what [mark_multiple_as_sent] does on the
    one-article batch; marking a batch and then another at the same
    instant leaves the file that marking their concatenation leaves; and
    marking the empty batch still rewrites the file, which turns a missing
    or undecodable file into the empty store. *)
Theorem mark_multiple_as_sent_composes (now : Z)
    (f : ArticleStorage.file_state) :
  (∀ io article,
     Py.get (url article) EmptyString ≠ EmptyString →
     ArticleStorage.mark_as_sent now io article f
     = ArticleStorage.mark_multiple_as_sent now io [article] f)
  ∧ (∀ l1 l2,
       ArticleStorage.mark_multiple_as_sent now ArticleStorage.WriteOk l2
         (ArticleStorage.mark_multiple_as_sent now ArticleStorage.WriteOk
            l1 f).2
       = ArticleStorage.mark_multiple_as_sent now ArticleStorage.WriteOk
           (l1 ++ l2) f)
  ∧ ArticleStorage.mark_multiple_as_sent now ArticleStorage.WriteOk [] f
    = (Ret tt, ArticleStorage.Valid (ArticleStorage.stored f)).
Proof.
  split; [|split].
  - intros io article Hu.
    rewrite mark_as_sent_outcome, mark_multiple_as_sent_outcome.
    apply truthy_nonempty in Hu. rewrite Hu.
    unfold ArticleStorage.mark_all. simpl. by rewrite Hu.
  - intros l1 l2. rewrite !mark_multiple_as_sent_outcome. simpl.
    unfold ArticleStorage.mark_all. by rewrite foldl_app.
  - by rewrite mark_multiple_as_sent_outcome.
Qed.

(** X12.  Pruning is idempotent and composes: after a successful
    [cleanup_old_entries] a second one with the same clock and retention
    returns 0 and leaves the file alone, whatever the disk would do; two
    successful prunings leave exactly the records that are after the
    later of the two cutoffs, and the counts they return add up to the
    number of records at or before it. *)
Theorem cleanup_old_entries_composes (f : ArticleStorage.file_state)
    (now1 days1 now2 days2 : Z) :
  let f1 :=
    (ArticleStorage.cleanup_old_entries now1 ArticleStorage.WriteOk
       days1 f).2 in
  let f2 :=
    (ArticleStorage.cleanup_old_entries now2 ArticleStorage.WriteOk
       days2 f1).2 in
  let cutoff := Z.max (now1 - days1 * DAY) (now2 - days2 * DAY) in
  (∀ io, ArticleStorage.cleanup_old_entries now1 io days1 f1 = (Ret 0, f1))
  ∧ ArticleStorage.stored f2
    = filter (ArticleStorage.fresh cutoff) (ArticleStorage.stored f)
  ∧ ∃ removed1 removed2,
      (ArticleStorage.cleanup_old_entries now1 ArticleStorage.WriteOk
         days1 f).1 = Ret removed1
      ∧ (ArticleStorage.cleanup_old_entries now2 ArticleStorage.WriteOk
           days2 f1).1 = Ret removed2
      ∧ removed1 + removed2
        = Z.of_nat (size (filter (ArticleStorage.expired cutoff)
                            (ArticleStorage.stored f))).
Proof.
  intros f1 f2 cutoff.
  pose proof (cleanup_old_entries_stored now1 days1 f) as Hf1. fold f1 in Hf1.
  pose proof (cleanup_old_entries_stored now2 days2 f1) as Hf2. fold f2 in Hf2.
  assert (ArticleStorage.stored f2
          = filter (ArticleStorage.fresh cutoff) (ArticleStorage.stored f))
    as Hstored.
  { rewrite Hf2, Hf1. apply map_eq. intros k.
    rewrite !map_lookup_filter.
    destruct (ArticleStorage.stored f !! k) as [r|]; simpl; [|done].
    unfold ArticleStorage.fresh, cutoff. simpl.
    repeat (case_guard; simpl); try done; lia. }
  split; [|split; [done|]].
  - intros io. rewrite cleanup_old_entries_outcome.
    assert (filter (ArticleStorage.expired (now1 - days1 * DAY))
              (ArticleStorage.stored f1) = ∅) as ->.
    { rewrite Hf1. apply map_eq. intros k.
      rewrite !map_lookup_filter, lookup_empty.
      destruct (ArticleStorage.stored f !! k) as [r|]; simpl; [|done].
      unfold ArticleStorage.fresh, ArticleStorage.expired. simpl.
      repeat (case_guard; simpl); try done; lia. }
    by rewrite map_size_empty.
  - eexists _, _. split; [apply cleanup_old_entries_count|].
    split; [apply cleanup_old_entries_count|].
    pose proof (size_fresh_expired (now1 - days1 * DAY)
                  (ArticleStorage.stored f)) as H1.
    pose proof (size_fresh_expired (now2 - days2 * DAY)
                  (ArticleStorage.stored f1)) as H2.
    pose proof (size_fresh_expired cutoff (ArticleStorage.stored f)) as H3.
    rewrite <- Hf1 in H1. rewrite <- Hf2 in H2. rewrite <- Hstored in H3.
    lia.
Qed.

(** X13.  [get_stats] after a successful [cleanup_old_entries]: the total
    is the total before minus the count the pruning returned, and the
    oldest date reported, when there is one, is after the cutoff; in any
    store the oldest date is not after the newest. *)
Theorem get_stats_after_cleanup (now days : Z)
    (f : ArticleStorage.file_state) :
  let pruned :=
    ArticleStorage.cleanup_old_entries now ArticleStorage.WriteOk days f in
  ∃ before after removed_count,
    ArticleStorage.get_stats f = Ret before
    ∧ ArticleStorage.get_stats pruned.2 = Ret after
    ∧ pruned.1 = Ret removed_count
    ∧ (∃ n m, ArticleStorage.total before = Some n
              ∧ ArticleStorage.total after = Some m
              ∧ m = n - removed_count)
    ∧ (∀ lo, ArticleStorage.oldest after = Some lo → now - days * DAY < lo)
    ∧ (∀ lo hi,
         ArticleStorage.oldest before = Some lo →
         ArticleStorage.newest before = Some hi → lo <= hi).
Proof.
  intros pruned.
  destruct (get_stats_returns f) as [before Hbefore].
  destruct (get_stats_returns pruned.2) as [after Hafter].
  exists before, after. eexists.
  split; [done|]. split; [done|].
  split; [apply cleanup_old_entries_count|].
  destruct (get_stats_spec _ _ Hbefore) as (Htotal & Hlo & Hhi & _).
  destruct (get_stats_spec _ _ Hafter) as (Htotal' & Hlo' & _).
  pose proof (cleanup_old_entries_stored now days f) as Hstored.
  fold pruned in Hstored. split; [|split].
  - eexists _, _. split; [done|]. split; [done|].
    rewrite Hstored.
    pose proof (size_fresh_expired (now - days * DAY)
                  (ArticleStorage.stored f)). lia.
  - intros lo Holdest. destruct (Hlo' lo Holdest) as [(k & r & Hk & <-) _].
    rewrite Hstored in Hk. by apply map_lookup_filter_Some in Hk as [_ ?].
  - intros lo hi Holdest Hnewest.
    destruct (Hlo lo Holdest) as [(k & r & Hk & <-) _].
    destruct (Hhi hi Hnewest) as [_ Hmax]. by eapply Hmax.
Qed.

(** X14.  A file that is missing or does not decode reads as the empty
    store everywhere: no locator is sent, the statistics are those of the
    empty store, and pruning returns 0 without writing.  Opening the
    storage creates a missing file but leaves an undecodable one as it is;
    the first successful commit replaces it by a store that holds the
    batch and nothing else. *)
Theorem unreadable_file_is_empty_store (f : ArticleStorage.file_state) :
  f = ArticleStorage.Missing ∨ f = ArticleStorage.Corrupt →
  (∀ x, ArticleStorage.is_sent x f = Ret false)
  ∧ ArticleStorage.get_stats f
    = Ret {| ArticleStorage.total := Some 0;
             ArticleStorage.oldest := None;
             ArticleStorage.newest := None |}
  ∧ (∀ now io days,
       ArticleStorage.cleanup_old_entries now io days f = (Ret 0, f))
  ∧ ArticleStorage.ensure_storage_exists ArticleStorage.WriteOk
      ArticleStorage.Missing
    = (Ret tt, ArticleStorage.Valid ∅)
  ∧ (∀ io, ArticleStorage.ensure_storage_exists io ArticleStorage.Corrupt
           = (Ret tt, ArticleStorage.Corrupt))
  ∧ (∀ now articles,
       ArticleStorage.mark_multiple_as_sent now ArticleStorage.WriteOk
         articles f
       = (Ret tt,
          ArticleStorage.Valid (ArticleStorage.mark_all now articles ∅))).
Proof.
  intros Hf.
  assert (ArticleStorage.stored f = ∅) as Hempty by by destruct Hf as [-> | ->].
  split; [|split; [|split; [|split; [done|split; [done|]]]]].
  - intros x. by rewrite is_sent_stored, Hempty, lookup_empty.
  - by destruct Hf as [-> | ->].
  - intros now io days. rewrite cleanup_old_entries_outcome, Hempty.
    by rewrite map_filter_empty, map_size_empty.
  - intros now articles. by rewrite mark_multiple_as_sent_outcome, Hempty.
Qed.

Lemma unreadable_file_is_empty_store_witness :
  ArticleStorage.is_sent "https://example.org/a" ArticleStorage.Corrupt
  = Ret false.
Proof.
  destruct (unreadable_file_is_empty_store ArticleStorage.Corrupt) as [H _].
  - by right.
  - apply H.
Defined.

(* ================================================================== *)
(** * Further properties of the notifier *)
(* ================================================================== *)

Section EscapeFacts.

Import TelegramNotifier.

Lemma append_assoc (a b c : string) :
  ((a ++ b) ++ c)%string = (a ++ (b ++ c))%string.
Proof.
  induction a as [|x a IH]; [done|].
  change (String x ((a ++ b) ++ c) = String x (a ++ (b ++ c)))%string.
  by rewrite IH.
Qed.

Lemma replace_app c by_ (a b : string) :
  replace c by_ (a ++ b)%string
  = (replace c by_ a ++ replace c by_ b)%string.
Proof.
  induction a as [|x a IH]; simpl; [done|].
  destruct (Ascii.eqb x c); simpl; rewrite IH; [|done].
  by rewrite append_assoc.
Qed.

(** The three replacements amount to one pass over the text. *)
Lemma _escape_html_each text : _escape_html text = Notions.escape_each text.
Proof.
  unfold _escape_html. induction text as [|x text IH]; [done|].
  cbn [replace Notions.escape_each]. unfold Notions.escape_char.
  destruct (Ascii.eqb_spec x "&") as [->|Hamp].
  { rewrite !replace_app, IH. done. }
  destruct (Ascii.eqb_spec x "<") as [->|Hlt].
  { cbn [replace].
    simpl Ascii.eqb. cbv iota. rewrite !replace_app, IH. done. }
  cbn [replace]. rewrite (proj2 (Ascii.eqb_neq x "<")) by done.
  cbn [replace].
  destruct (Ascii.eqb_spec x ">") as [->|Hgt]; by rewrite IH.
Qed.

Lemma escape_each_injective a b :
  Notions.escape_each a = Notions.escape_each b → a = b.
Proof.
  revert b. induction a as [|c a IH]; intros [|d b];
    cbn [Notions.escape_each]; unfold Notions.escape_char.
  - done.
  - by repeat (destruct (Ascii.eqb _ _)).
  - by repeat (destruct (Ascii.eqb _ _)).
  - destruct (Ascii.eqb_spec c "&") as [->|?];
      [|destruct (Ascii.eqb_spec c "<") as [->|?];
        [|destruct (Ascii.eqb_spec c ">") as [->|?]]];
      (destruct (Ascii.eqb_spec d "&") as [->|?];
       [|destruct (Ascii.eqb_spec d "<") as [->|?];
         [|destruct (Ascii.eqb_spec d ">") as [->|?]]]);
      cbv beta iota delta [String.append]; intros Heq;
      first [ discriminate
            | injection Heq as Heq; by rewrite (IH _ Heq)
            | injection Heq as Hc Heq;
              first [ congruence | by rewrite Hc, (IH _ Heq) ] ].
Qed.

Lemma list_ascii_of_string_app (a b : string) :
  list_ascii_of_string (a ++ b)%string
  = list_ascii_of_string a ++ list_ascii_of_string b.
Proof. induction a as [|x a IH]; simpl; [done|]. by rewrite IH. Qed.

End EscapeFacts.

(** X15.  [_escape_html]: the three replacements act as one pass that
    turns each ampersand, less-than and greater-than sign into its entity
    and leaves every other character alone (the ampersands of the entities
    are not escaped again).  The result holds no less-than or greater-than
    sign, a text without the three characters is returned as it is, and
    different texts have different escapes. *)
Theorem escape_html_one_pass (text : string) :
  TelegramNotifier._escape_html text = Notions.escape_each text
  ∧ (∀ c, c ∈ list_ascii_of_string (TelegramNotifier._escape_html text) →
          c ≠ "<"%char ∧ c ≠ ">"%char)
  ∧ ((∀ c, c ∈ list_ascii_of_string text →
           c ≠ "&"%char ∧ c ≠ "<"%char ∧ c ≠ ">"%char) →
     TelegramNotifier._escape_html text = text)
  ∧ (∀ other,
       TelegramNotifier._escape_html text
       = TelegramNotifier._escape_html other → text = other).
Proof.
  split; [apply _escape_html_each|]. split; [|split].
  - rewrite _escape_html_each. induction text as [|x text IH]; simpl.
    { by intros c ?%elem_of_nil. }
    intros c. rewrite list_ascii_of_string_app, elem_of_app.
    intros [Hc|Hc]; [|by apply IH]. revert Hc. unfold Notions.escape_char.
    destruct (Ascii.eqb_spec x "&") as [->|?];
      [|destruct (Ascii.eqb_spec x "<") as [->|?];
        [|destruct (Ascii.eqb_spec x ">") as [->|?]]]; simpl;
      rewrite ?elem_of_cons, elem_of_nil; intros Hc;
      repeat (destruct Hc as [->|Hc]; [done|]); done.
  - rewrite _escape_html_each. induction text as [|x text IH]; [done|].
    intros Hplain. cbn [Notions.escape_each]. rewrite IH.
    + destruct (Hplain x) as (? & ? & ?); [simpl; left|].
      unfold Notions.escape_char.
      by rewrite !(proj2 (Ascii.eqb_neq x _)) by done.
    + intros c Hc. apply Hplain. simpl. by right.
  - intros other. rewrite !_escape_html_each. apply escape_each_injective.
Qed.

Section DeliveryFacts.

Import TelegramNotifier.

Lemma pow2_le (a b : Z) : 0 <= a <= b → 2 ^ a <= 2 ^ b.
Proof. intros ?. apply Z.pow_le_mono_r; lia. Qed.

(** The retry loop: at most one attempt is accepted, and it is the last
    thing that happens; the attempts carry the message and are numbered
    from [attempt] on; the waiting is bounded. *)
Lemma send_loop_accepts transport message retry_count todo attempt :
  0 <= attempt →
  ∃ b evs,
    send_loop transport message retry_count todo attempt = (Ret b, evs)
    ∧ (if b then
         ∃ i, Notions.accepted transport evs = [SendMessage i message]
              ∧ last evs = Some (SendMessage i message)
       else Notions.accepted transport evs = [])
    ∧ (∀ i m, SendMessage i m ∈ evs →
         m = message ∧ (i = attempt ∨ attempt < i < retry_count))
    ∧ 0 <= Notions.total_delay evs
      <= 2 ^ Z.max (retry_count - 1) attempt - 2 ^ attempt.
Proof.
  revert attempt. induction todo as [|todo IH]; intros attempt Hattempt.
  - exists false, []. split; [done|]. split; [done|].
    split; [by intros i m ?%elem_of_nil|].
    unfold Notions.total_delay. simpl.
    pose proof (pow2_le attempt (Z.max (retry_count - 1) attempt)). lia.
  - assert (0 <= 0 <= 2 ^ Z.max (retry_count - 1) attempt - 2 ^ attempt)
      as Hzero
      by (pose proof (pow2_le attempt (Z.max (retry_count - 1) attempt));
          lia).
    assert (∀ i m, SendMessage i m ∈ [SendMessage attempt message] →
              m = message ∧ (i = attempt ∨ attempt < i < retry_count))
      as Hone.
    { intros i m [[= -> ->]|[]%elem_of_nil]%elem_of_cons. by split; [|left]. }
    assert (∀ e, transport attempt = Raise e →
              Notions.accepted transport [SendMessage attempt message] = [])
      as Hrefused.
    { intros e He. unfold Notions.accepted. simpl. by rewrite He. }
    simpl. destruct (transport attempt) as [[]|e] eqn:Hanswer.
    + exists true. eexists. split; [done|]. split; [|by split].
      exists attempt. unfold Notions.accepted. simpl. by rewrite Hanswer.
    + destruct e;
        try (exists false; eexists; split; [done|];
             split; [by eapply Hrefused|by split]).
      destruct (Z.ltb_spec attempt (retry_count - 1)) as [Hmore|Hlast].
      2:{ exists false. eexists. split; [done|].
          split; [by eapply Hrefused|by split]. }
      destruct (IH (attempt + 1)) as (b & evs & -> & Hacc & Hsends & Hwait);
        [lia|].
      exists b. eexists. split; [done|].
      assert (Notions.accepted transport
                (SendMessage attempt message :: Sleep (2 ^ attempt) :: evs)
              = Notions.accepted transport evs) as Hskip.
      { unfold Notions.accepted. simpl. by rewrite Hanswer. }
      split; [|split].
      * rewrite Hskip. destruct b; [|done].
        destruct Hacc as (i & Hi & Hlast). exists i. split; [done|].
        destruct evs as [|ev evs]; [done|]. done.
      * intros i m [[= -> ->]|[[=]|Hin]%elem_of_cons]%elem_of_cons.
        { by split; [|left]. }
        destruct (Hsends i m Hin) as [-> Hi]. split; [done|]. right. lia.
      * unfold Notions.total_delay, delays in *. csimpl. revert Hwait.
        rewrite !Z.max_l by lia. rewrite Z.pow_add_r by lia.
        change (2 ^ 1) with 2. pose proof (Z.pow_pos_nonneg 2 attempt).
        lia.
Qed.

(** [send_digest] answers true when one attempt was accepted, false when
    none was, and every attempt carries the digest of the articles. *)
Lemma senders_accept_once self transport clock articles max_articles :
  let out := send_digest self transport clock articles max_articles in
  let message := format_digest_message clock articles max_articles in
  (out.1 = Ret true →
   ∃ i, Notions.accepted transport out.2 = [SendMessage i message])
  ∧ (out.1 = Ret false → Notions.accepted transport out.2 = [])
  ∧ (∀ i m, SendMessage i m ∈ out.2 → m = message).
Proof.
  intros out message. subst out. unfold send_digest.
  destruct articles as [|a articles].
  { split; [done|]. split; [done|]. by intros i m ?%elem_of_nil. }
  fold message. unfold _send_message_async.
  destruct (negb (configured self)).
  { split; [done|]. split; [done|]. by intros i m ?%elem_of_nil. }
  destruct (send_loop_accepts transport message 3 (Z.to_nat 3) 0)
    as (b & evs & Hloop & Hacc & Hsends & _); [done|].
  rewrite Hloop. cbn [fst snd Py.try_except].
  split; [|split].
  - intros [= ->]. destruct Hacc as (i & Hi & _). by exists i.
  - by intros [= ->].
  - intros i m Hin. by destruct (Hsends i m Hin).
Qed.

End DeliveryFacts.

(** X16.  [_send_message_async] never gets a message accepted twice: it
    answers true exactly when the transport accepted one attempt, which is
    then the last thing that happened, and false exactly when the
    transport accepted none.  Every attempt carries the message it was
    given and a number below [retry_count], and the pauses add up to at
    most 2^(retry_count - 1) - 1 seconds. *)
Theorem message_is_accepted_at_most_once (self : TelegramNotifier.t)
    (transport : TelegramNotifier.Transport)
    (message : TelegramNotifier.Message) (retry_count : Z) :
  let out :=
    TelegramNotifier._send_message_async self transport message retry_count in
  (out.1 = Ret true
   ↔ ∃ i, Notions.accepted transport out.2
          = [TelegramNotifier.SendMessage i message]
          ∧ last out.2 = Some (TelegramNotifier.SendMessage i message))
  ∧ (out.1 = Ret false ↔ Notions.accepted transport out.2 = [])
  ∧ (∀ i m, TelegramNotifier.SendMessage i m ∈ out.2 →
       m = message ∧ 0 <= i < retry_count)
  ∧ 0 <= Notions.total_delay out.2 <= 2 ^ Z.max 0 (retry_count - 1) - 1.
Proof.
  intros out. subst out. unfold TelegramNotifier._send_message_async.
  destruct (negb (TelegramNotifier.configured self)).
  { simpl. split; [split; [done|by intros (i & [=] & _)]|].
    split; [done|]. split; [by intros i m ?%elem_of_nil|].
    unfold Notions.total_delay. simpl.
    pose proof (Z.pow_pos_nonneg 2 (Z.max 0 (retry_count - 1))). lia. }
  destruct (send_loop_accepts transport message retry_count
              (Z.to_nat retry_count) 0)
    as (b & evs & Hloop & Hacc & Hsends & Hwait); [done|].
  rewrite Hloop. cbn [fst snd].
  split; [|split; [|split]].
  - destruct b; [by split|]. rewrite Hacc.
    split; [done|by intros (i & [=] & _)].
  - destruct b; [|by split]. destruct Hacc as (i & -> & _). by split.
  - intros i m Hin. destruct (Hsends i m Hin) as [-> Hi]. split; [done|].
    destruct (Z.to_nat retry_count) as [|todo] eqn:Htodo.
    { simpl in Hloop. injection Hloop as _ <-. by apply elem_of_nil in Hin. }
    lia.
  - change (2 ^ 0) with 1 in Hwait.
    by rewrite (Z.max_comm 0 (retry_count - 1)).
Qed.

(** X17.  What the two senders ask of the transport.  [send_digest]
    always answers a boolean; it makes at most three attempts, all with
    the digest of the articles it was given, waits at most 3 seconds in
    all, and answers true only when the notifier is configured, the list
    is not empty and exactly one attempt was accepted.
    [send_error_notification] makes one attempt with the escaped error
    text when the notifier is configured, none otherwise; it never waits
    and answers whether that attempt was accepted. *)
Theorem senders_are_bounded (self : TelegramNotifier.t)
    (transport : TelegramNotifier.Transport) :
  (∀ clock articles max_articles,
     let out :=
       TelegramNotifier.send_digest self transport clock articles
         max_articles in
     let message :=
       TelegramNotifier.format_digest_message clock articles max_articles in
     ∃ b, out.1 = Ret b
          ∧ (length (TelegramNotifier.attempts out.2) <= 3)%nat
          ∧ (∀ i m, TelegramNotifier.SendMessage i m ∈ out.2 → m = message)
          ∧ Notions.total_delay out.2 <= 3
          ∧ (b = true →
             articles ≠ [] ∧ TelegramNotifier.configured self = true
             ∧ ∃ i, Notions.accepted transport out.2
                    = [TelegramNotifier.SendMessage i message])
          ∧ (b = false → Notions.accepted transport out.2 = []))
  ∧ (∀ error_message,
       TelegramNotifier.send_error_notification self transport error_message
       = if TelegramNotifier.configured self
         then (Ret (TelegramNotifier.delivered (transport 0)),
               [TelegramNotifier.SendMessage 0
                  (TelegramNotifier.Alert
                     (TelegramNotifier._escape_html error_message))])
         else (Ret false, [])).
Proof.
  split.
  - intros clock articles max_articles out message. subst out.
    assert (∀ P : Prop,
              (length (TelegramNotifier.attempts []) <= 3)%nat
              ∧ (∀ i m, TelegramNotifier.SendMessage i m ∈ [] → m = message)
              ∧ Notions.total_delay [] <= 3
              ∧ (false = true → P)
              ∧ (false = false → Notions.accepted transport [] = []))
      as Hnothing.
    { intros P. split; [simpl; lia|]. split; [by intros i m ?%elem_of_nil|].
      split; [by unfold Notions.total_delay|]. by split. }
    unfold TelegramNotifier.send_digest.
    destruct articles as [|a articles].
    { exists false. split; [done|]. apply Hnothing. }
    fold message. unfold TelegramNotifier._send_message_async.
    destruct (TelegramNotifier.configured self) eqn:Hconf; cbn [negb].
    2:{ exists false. split; [done|]. apply Hnothing. }
    destruct (send_loop_accepts transport message 3 (Z.to_nat 3) 0)
      as (b & evs & Hloop & Hacc & Hsends & Hwait); [done|].
    destruct (send_loop_returns transport message 3 (Z.to_nat 3) 0)
      as (b' & evs' & Hloop' & Hlen).
    rewrite Hloop in Hloop'. injection Hloop' as <- <-.
    rewrite Hloop. cbn [fst snd Py.try_except].
    exists b. split; [done|]. split; [done|].
    split; [intros i m Hin; by destruct (Hsends i m Hin)|].
    split; [change (2 ^ Z.max (3 - 1) 0 - 2 ^ 0) with 3 in Hwait; lia|].
    split.
    + intros ->. split; [done|]. split; [done|].
      destruct Hacc as (i & Hi & _). by exists i.
    + by intros ->.
  - intros error_message. unfold TelegramNotifier.send_error_notification,
      TelegramNotifier._send_message_async.
    destruct (TelegramNotifier.configured self); cbn [negb]; [|done].
    simpl. destruct (transport 0) as [[]|e]; [done|]. by destruct e.
Qed.

(* ================================================================== *)
(** * Further properties of a run *)
(* ================================================================== *)

Section PipelineFacts.

Import ArticleStorage Main.

Local Ltac run_process :=
  unfold mbind, mret, st_bind, st_ret, py_bind, py_ret, Py.bind,
    on_file, reading_file, notifying, logging, pure.

Lemma _normalize_entry_well_formed w entry name a :
  NewsFetcher._normalize_entry w entry name = Some a → Notions.well_formed a.
Proof.
  intros Hnorm.
  destruct (_normalize_entry_Some _ _ _ _ Hnorm)
    as (u & _ & Hu & Hurl & Htitle & _).
  split; [by exists u|]. by rewrite Htitle.
Qed.

Lemma _normalize_article_well_formed w data a :
  NewsFetcher._normalize_article w data = Some a → Notions.well_formed a.
Proof.
  unfold NewsFetcher._normalize_article.
  destruct (NewsFetcher.api_url data) as [u|]; simpl; [|done].
  destruct u as [|c u]; simpl; [done|].
  intros [= <-]. split; [by eexists|by eexists].
Qed.

Lemma fetch_feed_well_formed w feed_url name hours :
  Forall Notions.well_formed (NewsFetcher.fetch_feed w feed_url name hours).
Proof.
  rewrite fetch_feed_filter.
  destruct (NewsFetcher.feed w feed_url) as [entries|]; [|by constructor].
  apply Forall_forall. intros a Hin.
  apply list_elem_of_In, filter_In in Hin as [Hin _].
  apply list_elem_of_In, list_elem_of_omap in Hin as (entry & _ & Hnorm).
  by eapply _normalize_entry_well_formed.
Qed.

Lemma fetch_articles_well_formed w client kws hours :
  Forall Notions.well_formed (NewsFetcher.fetch_articles w client kws hours).
Proof.
  unfold NewsFetcher.fetch_articles.
  destruct client; [|by constructor].
  destruct (NewsFetcher.get_everything _ _ _) as [response|];
    [|by constructor].
  destruct (String.eqb _ _); [|by constructor].
  enough (∀ acc, Forall Notions.well_formed acc →
            Forall Notions.well_formed
              (foldl (fun articles article_data =>
                        match NewsFetcher._normalize_article w article_data with
                        | Some article => articles ++ [article]
                        | None => articles
                        end) acc (NewsFetcher.articles response))) as H
    by (apply H; constructor).
  induction (NewsFetcher.articles response) as [|d l IH]; intros acc Hacc;
    simpl; [done|].
  apply IH.
  destruct (NewsFetcher._normalize_article w d) as [a|] eqn:Hnorm; [|done].
  apply Forall_app. split; [done|]. apply Forall_singleton.
  by eapply _normalize_article_well_formed.
Qed.

Lemma collect_well_formed w self kws hours :
  Forall Notions.well_formed (NewsFetcher.collect w self kws hours).
Proof.
  rewrite collect_order. apply Forall_app. split.
  - induction (NewsFetcher.rss_feeds self) as [|[n u] l IH];
      [by constructor|].
    csimpl. apply Forall_app. split; [apply fetch_feed_well_formed|apply IH].
  - apply fetch_articles_well_formed.
Qed.

(** The aggregator always answers, with the first article of each
    locator. *)
Lemma fetch_all_articles_first_seen w self kws hours :
  NewsFetcher.fetch_all_articles w self kws hours
  = Ret (NewsFetcher.first_seen ∅ (NewsFetcher.collect w self kws hours)).
Proof.
  unfold NewsFetcher.fetch_all_articles.
  by rewrite dedup_loop_first_seen by apply collect_url.
Qed.

Lemma first_seen_NoDup seen todo :
  NoDup (url <$> NewsFetcher.first_seen seen todo).
Proof.
  revert seen. induction todo as [|x rest IH]; intros seen; simpl.
  - constructor.
  - destruct (url x) as [v|] eqn:Hv; [|apply IH].
    case_bool_decide as Hseen; [|apply IH].
    csimpl. constructor; [|apply IH]. rewrite Hv.
    intros (a & Ha & Hin)%list_elem_of_fmap.
    apply first_seen_fresh in Hin as (_ & u & Hu & Hfresh).
    rewrite Hu in Ha. injection Ha as ->. set_solver.
Qed.

(** What the matcher does to an article it keeps. *)
Lemma filter_articles_elem self l a' :
  a' ∈ KeywordMatcher.filter_articles self l →
  ∃ a, a ∈ l
       ∧ KeywordMatcher.find_matches self a ≠ ∅
       ∧ a' = set_matched_keywords a
                (elements (KeywordMatcher.find_matches self a)).
Proof.
  induction l as [|x l IH]; simpl; [by intros ?%elem_of_nil|].
  case_bool_decide as Hne.
  - intros [->|Hin]%elem_of_cons.
    + exists x. split; [left|done].
    + destruct (IH Hin) as (a & ? & ? & ?). exists a. split; [by right|done].
  - intros Hin. destruct (IH Hin) as (a & ? & ? & ?).
    exists a. split; [by right|done].
Qed.

Lemma filter_articles_urls self l :
  (url <$> KeywordMatcher.filter_articles self l) `sublist_of` (url <$> l).
Proof.
  induction l as [|x l IH]; simpl; [done|].
  case_bool_decide; csimpl; [by apply sublist_skip|by apply sublist_cons].
Qed.

Lemma not_yet_sent_sublist matched f new_articles :
  not_yet_sent matched f = Ret new_articles →
  new_articles `sublist_of` matched.
Proof.
  revert new_articles.
  induction matched as [|x rest IH]; intros new_articles; simpl.
  - by intros [= <-].
  - destruct (url x) as [u|]; [|done]. simpl.
    rewrite is_sent_stored. unfold mbind, py_bind, Py.bind.
    destruct (not_yet_sent rest f) as [new_rest|]; [|done].
    case_bool_decide; intros [= <-].
    + apply sublist_cons. by apply IH.
    + apply sublist_skip. by apply IH.
Qed.

Lemma not_yet_sent_returns matched f :
  Forall (fun a => is_Some (url a)) matched →
  ∃ new_articles, not_yet_sent matched f = Ret new_articles.
Proof.
  induction 1 as [|x rest [u Hu] _ [new_rest IH]]; simpl; [by eexists|].
  rewrite Hu. simpl. rewrite is_sent_stored, IH.
  unfold mbind, py_bind, Py.bind. by eexists.
Qed.

(** Nothing is new when every matching article is known. *)
Lemma not_yet_sent_all_sent matched f :
  Forall (Notions.already_sent f) matched →
  not_yet_sent matched f = Ret [].
Proof.
  induction 1 as [|x rest (u & Hu & Hsent) _ IH]; simpl; [done|].
  rewrite Hu. simpl. rewrite Hsent, IH. done.
Qed.

Lemma log_details_returns articles :
  Forall (fun a => is_Some (title a)) articles →
  log_details articles = Ret tt.
Proof.
  induction 1 as [|x rest [ttl Httl] _ IH]; simpl; [done|].
  by rewrite Httl.
Qed.

Lemma StronglySorted_take {A} (R : A → A → Prop) n l :
  StronglySorted R l → StronglySorted R (take n l).
Proof.
  intros Hsorted. revert n.
  induction Hsorted as [|x l _ IH Hx]; intros [|n]; simpl; try constructor.
  - apply IH.
  - by apply Forall_take.
Qed.

(** The shape of a batch. *)
Lemma digest_batch_Some env f batch :
  digest_batch env f = Ret (Some batch) →
  (1 <= length batch <= 5)%nat
  ∧ NoDup (url <$> batch)
  ∧ StronglySorted newer_or_equal batch
  ∧ ∀ a', a' ∈ batch →
      (∃ u, url a' = Some u ∧ is_sent u f = Ret false)
      ∧ ∃ a, Notions.well_formed a
             ∧ KeywordMatcher.find_matches
                 (KeywordMatcher.init Config.KEYWORDS) a ≠ ∅
             ∧ a' = set_matched_keywords a
                      (elements (KeywordMatcher.find_matches
                                   (KeywordMatcher.init Config.KEYWORDS) a)).
Proof.
  unfold digest_batch. rewrite fetch_all_articles_first_seen.
  unfold mbind, py_bind, Py.bind.
  pose proof (first_seen_NoDup ∅
                (NewsFetcher.collect (world env)
                   (NewsFetcher.init Config.RSS_FEEDS (NEWSAPI_KEY env))
                   Config.KEYWORDS Config.FETCH_WINDOW_HOURS)) as Hnodup.
  assert (Forall Notions.well_formed
            (NewsFetcher.first_seen ∅
               (NewsFetcher.collect (world env)
                  (NewsFetcher.init Config.RSS_FEEDS (NEWSAPI_KEY env))
                  Config.KEYWORDS Config.FETCH_WINDOW_HOURS))) as Hwf.
  { apply Forall_forall. intros a [Hin _]%first_seen_fresh.
    by eapply (proj1 (Forall_forall _ _) (collect_well_formed _ _ _ _)). }
  destruct (NewsFetcher.first_seen _ _) as [|x all]; [done|].
  pose proof (filter_articles_urls (KeywordMatcher.init Config.KEYWORDS)
                (x :: all)) as Hurls.
  pose proof (filter_articles_elem (KeywordMatcher.init Config.KEYWORDS)
                (x :: all)) as Helem.
  destruct (KeywordMatcher.filter_articles _ _) as [|y matched]; [done|].
  destruct (not_yet_sent (y :: matched) f) as [[|z new_articles]|] eqn:Hnew;
    try done.
  intros [= <-].
  pose proof (not_yet_sent_sublist _ _ _ Hnew) as Hsub.
  unfold sort_and_cap. rewrite slice_to_nonneg by done.
  split; [|split; [|split]].
  - rewrite length_take.
    rewrite (Permutation_length (sort_newest_first_perm (z :: new_articles))).
    change (Z.to_nat Config.MAX_ARTICLES_IN_DIGEST) with 5%nat.
    cbn [length]. lia.
  - rewrite fmap_take. eapply sublist_NoDup; [|apply sublist_take].
    rewrite (sort_newest_first_perm (z :: new_articles)).
    eapply sublist_NoDup; [|by apply fmap_sublist].
    by eapply sublist_NoDup.
  - apply StronglySorted_take, sort_newest_first_sorted.
  - intros a' Hin. apply subseteq_take in Hin.
    rewrite (sort_newest_first_perm (z :: new_articles)) in Hin.
    destruct (not_yet_sent_spec _ _ _ _ Hnew Hin) as [Hmatched Hunsent].
    split; [done|].
    destruct (Helem a' Hmatched) as (a & Ha & Hne & ->).
    exists a. split; [|done].
    by apply (proj1 (Forall_forall _ _) Hwf).
Qed.

(** Steps 2 to 6 never fail. *)
Lemma digest_batch_returns env f : ∃ r, digest_batch env f = Ret r.
Proof.
  unfold digest_batch. rewrite fetch_all_articles_first_seen.
  unfold mbind, py_bind, Py.bind.
  assert (Forall (fun a => is_Some (url a))
            (NewsFetcher.first_seen ∅
               (NewsFetcher.collect (world env)
                  (NewsFetcher.init Config.RSS_FEEDS (NEWSAPI_KEY env))
                  Config.KEYWORDS Config.FETCH_WINDOW_HOURS))) as Hurl.
  { apply Forall_forall. intros a (_ & u & Hu & _)%first_seen_fresh.
    by rewrite Hu. }
  destruct (NewsFetcher.first_seen _ _) as [|x all]; [by eexists|].
  pose proof (filter_articles_elem (KeywordMatcher.init Config.KEYWORDS)
                (x :: all)) as Helem.
  destruct (KeywordMatcher.filter_articles _ _) as [|y matched];
    [by eexists|].
  destruct (not_yet_sent_returns (y :: matched) f) as [new_articles ->].
  { apply Forall_forall. intros a' Hin.
    destruct (Helem a' Hin) as (a & Ha & _ & ->).
    simpl. by apply (proj1 (Forall_forall _ _) Hurl). }
  destruct new_articles; by eexists.
Qed.

Lemma batch_titles env f batch :
  digest_batch env f = Ret (Some batch) → log_details batch = Ret tt.
Proof.
  intros Hbatch. apply log_details_returns, Forall_forall. intros a' Hin.
  destruct (digest_batch_Some _ _ _ Hbatch) as (_ & _ & _ & Helem).
  destruct (Helem a' Hin) as (_ & a & [_ Htitle] & _ & ->). done.
Qed.

(** The batch a run attempts is the one steps 2 to 6 compute on the
    initialized file. *)
Lemma attempted_batch_Some env f batch :
  attempted_batch env f = Some batch →
  (ensure_storage_exists (init_io env) f).1 = Ret tt
  ∧ digest_batch env (ensure_storage_exists (init_io env) f).2
    = Ret (Some batch).
Proof.
  unfold attempted_batch.
  destruct (ensure_storage_exists (init_io env) f) as [[[]|e] f1]; [|done].
  cbn [fst snd].
  destruct (digest_batch env f1) as [[batch'|]|]; try done.
  destruct (log_details batch'); [|done]. by intros [= ->].
Qed.

(** A run that reaches delivery, with what it asked of the chat API. *)
Lemma main_after_delivery_events env f batch b :
  attempted_batch env f = Some batch →
  delivery env batch = Ret b →
  let f1 := (ensure_storage_exists (init_io env) f).2 in
  let notifier :=
    TelegramNotifier.init (TELEGRAM_BOT_TOKEN env) (TELEGRAM_CHAT_ID env) in
  let evs :=
    (TelegramNotifier.send_digest notifier (digest_transport env) (clock env)
       batch Config.MAX_ARTICLES_IN_DIGEST).2 in
  let alert :=
    (TelegramNotifier.send_error_notification notifier (alert_transport env)
       "Critical error").2 in
  main env f
  = if b then
      match mark_multiple_as_sent (mark_now env) (mark_io env) batch f1 with
      | (Ret _, f2) =>
          match cleanup_old_entries (cleanup_now env) (cleanup_io env)
                  Config.CLEANUP_DAYS f2 with
          | (Ret _, f3) =>
              (0, {| file := f3; sent := evs;
                     log := [Tracked batch; Completed] |})
          | (Raise _, f3) =>
              (1, {| file := f3; sent := evs ++ alert;
                     log := [Tracked batch] |})
          end
      | (Raise _, f2) =>
          (1, {| file := f2; sent := evs ++ alert; log := [] |})
      end
    else
      match cleanup_old_entries (cleanup_now env) (cleanup_io env)
              Config.CLEANUP_DAYS f1 with
      | (Ret _, f3) =>
          (0, {| file := f3; sent := evs; log := [NotMarked; Completed] |})
      | (Raise _, f3) =>
          (1, {| file := f3; sent := evs ++ alert; log := [NotMarked] |})
      end.
Proof.
  unfold attempted_batch, delivery, main, run, deliver_and_commit.
  run_process. cbn [file sent log].
  destruct (ensure_storage_exists (init_io env) f) as [[[]|e] f1]; [|done].
  cbn [file sent log fst snd].
  destruct (get_stats_returns f1) as [stats ->].
  destruct (digest_batch env f1) as [[batch'|]|]; try done.
  destruct (log_details batch') as [[]|]; [|done].
  intros [= ->].
  destruct (TelegramNotifier.send_digest _ _ _ _ _) as [r evs].
  cbn [fst snd]. intros ->.
  destruct (TelegramNotifier.send_error_notification _ _ _) as [r' alert].
  cbn [file sent log fst snd app].
  destruct b; cbn [file sent log fst snd app].
  - destruct (mark_multiple_as_sent _ _ _ _) as [[[]|?] f2];
      cbn [file sent log fst snd app]; [|done].
    by destruct (cleanup_old_entries _ _ _ _) as [[?|?] f3].
  - by destruct (cleanup_old_entries _ _ _ _) as [[?|?] f3].
Qed.

(** A run that finds nothing to send. *)
Lemma main_quiet env f :
  (ensure_storage_exists (init_io env) f).1 = Ret tt →
  digest_batch env (ensure_storage_exists (init_io env) f).2 = Ret None →
  main env f
  = (0, {| file := (ensure_storage_exists (init_io env) f).2;
           sent := []; log := [] |}).
Proof.
  unfold main, run. run_process. cbn [file sent log].
  destruct (ensure_storage_exists (init_io env) f) as [r f1].
  cbn [fst snd]. intros -> Hbatch. cbn [file sent log fst snd].
  destruct (get_stats_returns f1) as [stats ->].
  by rewrite Hbatch.
Qed.

Lemma cleanup_old_entries_answers now days f :
  ∃ removed f', cleanup_old_entries now WriteOk days f = (Ret removed, f').
Proof.
  rewrite cleanup_old_entries_outcome.
  destruct (_ =? 0); by eexists _, _.
Qed.

End PipelineFacts.

(** X19.  The batch a run hands to delivery: between one and five
    articles with pairwise different locators, newest first; each has a
    non-empty locator that the tracker does not hold, a title, and is
    annotated with a non-empty duplicate-free list of exactly the
    configured keywords that its text matches. *)
Theorem attempted_batch_is_well_formed (env : Main.Env)
    (f : ArticleStorage.file_state) (batch : list Article) :
  Main.attempted_batch env f = Some batch →
  (1 <= length batch <= 5)%nat
  ∧ NoDup (url <$> batch)
  ∧ StronglySorted Main.newer_or_equal batch
  ∧ ∀ a, a ∈ batch →
      (∃ u, url a = Some u ∧ u ≠ EmptyString
            ∧ ArticleStorage.is_sent u f = Ret false)
      ∧ is_Some (title a)
      ∧ ∃ ks, matched_keywords a = Some ks ∧ ks ≠ [] ∧ NoDup ks
              ∧ ∀ k, k ∈ ks
                     ↔ k ∈ Config.KEYWORDS
                       ∧ KeywordMatcher.search k (KeywordMatcher.text_of a)
                         = true.
Proof.
  intros [_ Hbatch]%attempted_batch_Some.
  destruct (digest_batch_Some _ _ _ Hbatch)
    as (Hlen & Hnodup & Hsorted & Helem).
  split; [done|]. split; [done|]. split; [done|].
  intros a' Hin.
  destruct (Helem a' Hin)
    as ((u & Hu & Hunsent) & a & [(v & Hv & Hne) Htitle] & Hmatch & ->).
  simpl in Hu. rewrite Hv in Hu. injection Hu as <-.
  split; [|split; [done|]].
  - exists v. split; [done|]. split; [done|].
    revert Hunsent. rewrite !is_sent_stored.
    by rewrite ensure_storage_exists_stored.
  - eexists. split; [reflexivity|]. split; [|split].
    + intros Hempty. apply Hmatch. apply elements_empty_iff in Hempty.
      by apply leibniz_equiv.
    + apply NoDup_elements.
    + intros k. rewrite elem_of_elements, find_matches_spec, search_spec.
      done.
Qed.

Lemma attempted_batch_is_well_formed_witness :
  NoDup (url <$> Examples.batch)
  ∧ StronglySorted Main.newer_or_equal Examples.batch.
Proof.
  destruct (attempted_batch_is_well_formed
              (Examples.env Examples.transport_up ArticleStorage.WriteOk)
              ArticleStorage.Missing Examples.batch)
    as (_ & Hnodup & Hsorted & _).
  - by vm_compute.
  - by split.
Defined.

(** X20.  A run whose delivery succeeds on a working disk: it ends with
    status 0 and logs the batch as tracked; the chat API accepted exactly
    one message, the digest of the batch; the file then holds the
    records of the store as it was, with one record per article of the
    batch stamped with the time of the commit, less those at or before
    the pruning cutoff.  When the commit time is after the cutoff every
    article of the batch is sent afterwards. *)
Theorem delivered_batch_is_committed (env : Main.Env)
    (f : ArticleStorage.file_state) (batch : list Article) :
  Main.attempted_batch env f = Some batch →
  Main.delivery env batch = Ret true →
  Main.mark_io env = ArticleStorage.WriteOk →
  Main.cleanup_io env = ArticleStorage.WriteOk →
  let cutoff := Main.cleanup_now env - Config.CLEANUP_DAYS * DAY in
  let after := Main.file (Main.main env f).2 in
  (Main.main env f).1 = 0
  ∧ Main.log (Main.main env f).2 = [Main.Tracked batch; Main.Completed]
  ∧ (∃ i, Notions.accepted (Main.digest_transport env)
            (Main.sent (Main.main env f).2)
          = [TelegramNotifier.SendMessage i
               (TelegramNotifier.format_digest_message (Main.clock env)
                  batch Config.MAX_ARTICLES_IN_DIGEST)])
  ∧ ArticleStorage.stored after
    = filter (ArticleStorage.fresh cutoff)
        (ArticleStorage.mark_all (Main.mark_now env) batch
           (ArticleStorage.stored f))
  ∧ (cutoff < Main.mark_now env →
     ∀ a, a ∈ batch →
       ∃ u r, url a = Some u
              ∧ ArticleStorage.stored after !! u = Some r
              ∧ ArticleStorage.sent_at r = Main.mark_now env
              ∧ ArticleStorage.is_sent u after = Ret true).
Proof.
  intros Hbatch Hdelivery Hmark Hcleanup cutoff after. subst after.
  pose proof (main_after_delivery_events env f batch true Hbatch Hdelivery)
    as Hmain. cbv zeta in Hmain. rewrite Hmark, Hcleanup in Hmain.
  rewrite mark_multiple_as_sent_outcome in Hmain.
  pose proof (cleanup_old_entries_stored (Main.cleanup_now env)
                Config.CLEANUP_DAYS
                (ArticleStorage.Valid
                   (ArticleStorage.mark_all (Main.mark_now env) batch
                      (ArticleStorage.stored
                         (ArticleStorage.ensure_storage_exists
                            (Main.init_io env) f).2)))) as Hstored.
  destruct (cleanup_old_entries_answers (Main.cleanup_now env)
              Config.CLEANUP_DAYS
              (ArticleStorage.Valid
                 (ArticleStorage.mark_all (Main.mark_now env) batch
                    (ArticleStorage.stored
                       (ArticleStorage.ensure_storage_exists
                          (Main.init_io env) f).2))))
    as (removed & f3 & Hclean).
  rewrite Hclean in Hmain, Hstored. rewrite Hmain. cbn [fst snd] in *.
  cbn [Main.file Main.sent Main.log].
  rewrite ensure_storage_exists_stored in Hstored. simpl in Hstored.
  split; [done|]. split; [done|]. split; [|split; [done|]].
  - destruct (senders_accept_once
                (TelegramNotifier.init (Main.TELEGRAM_BOT_TOKEN env)
                   (Main.TELEGRAM_CHAT_ID env))
                (Main.digest_transport env) (Main.clock env) batch
                Config.MAX_ARTICLES_IN_DIGEST) as [Htrue _].
    apply Htrue. exact Hdelivery.
  - intros Hfresh a Hin.
    destruct (attempted_batch_Some _ _ _ Hbatch) as [_ Hdigest].
    destruct (digest_batch_Some _ _ _ Hdigest) as (_ & _ & _ & Helem).
    destruct (Helem a Hin)
      as ((u & Hu & _) & a0 & [(v & Hv & Hne) _] & _ & ->).
    simpl in Hu. rewrite Hv in Hu. injection Hu as <-.
    destruct (mark_all_inserts (Main.mark_now env) batch
                (ArticleStorage.stored f) _ v Hin Hv Hne)
      as (r & Hr & Hstamp & _).
    assert (ArticleStorage.stored f3 !! v = Some r) as Hafter.
    { rewrite Hstored. apply map_lookup_filter_Some. split; [done|].
      unfold ArticleStorage.fresh. simpl. fold cutoff. lia. }
    exists v, r. split; [done|]. split; [done|]. split; [done|].
    rewrite is_sent_stored, Hafter. by rewrite bool_decide_true.
Qed.

Lemma delivered_batch_is_committed_witness :
  let env := Examples.env Examples.transport_up ArticleStorage.WriteOk in
  (Main.main env ArticleStorage.Missing).1 = 0
  ∧ Main.log (Main.main env ArticleStorage.Missing).2
    = [Main.Tracked Examples.batch; Main.Completed].
Proof.
  intros env.
  destruct (delivered_batch_is_committed env ArticleStorage.Missing
              Examples.batch) as (Hstatus & Hlog & _).
  - by vm_compute.
  - by vm_compute.
  - reflexivity.
  - reflexivity.
  - by split.
Defined.

(** X21.  An article that was delivered and committed is not notified
    again by the next run: when a run delivers its batch, the commit
    succeeds, the pruning does not break the file and the commit time is
    after the pruning cutoff, no article in the batch of a run started on
    the file it leaves has the locator of an article of that batch,
    whatever the sources then return. *)
Theorem committed_article_is_not_sent_again (env env' : Main.Env)
    (f : ArticleStorage.file_state) (batch batch' : list Article) :
  Main.attempted_batch env f = Some batch →
  Main.delivery env batch = Ret true →
  Main.mark_io env = ArticleStorage.WriteOk →
  Main.cleanup_io env ≠ ArticleStorage.WriteFails →
  Main.cleanup_now env - Config.CLEANUP_DAYS * DAY < Main.mark_now env →
  Main.attempted_batch env' (Main.file (Main.main env f).2) = Some batch' →
  ∀ a a', a ∈ batch → a' ∈ batch' → url a ≠ url a'.
Proof.
  intros Hbatch Hdelivery Hmark Hcleanup Hfresh Hnext a a' Hin Hin' Hsame.
  pose proof (main_after_delivery_events env f batch true Hbatch Hdelivery)
    as Hmain. cbv zeta in Hmain. rewrite Hmark in Hmain.
  rewrite mark_multiple_as_sent_outcome in Hmain.
  destruct (attempted_batch_Some _ _ _ Hbatch) as [_ Hdigest].
  destruct (digest_batch_Some _ _ _ Hdigest) as (_ & _ & _ & Helem).
  destruct (Helem a Hin) as ((u & Hu & _) & a0 & [(v & Hv & Hne) _] & _ & ->).
  simpl in Hu. rewrite Hv in Hu. injection Hu as <-.
  destruct (mark_all_inserts (Main.mark_now env) batch
              (ArticleStorage.stored
                 (ArticleStorage.ensure_storage_exists
                    (Main.init_io env) f).2) _ v Hin Hv Hne)
    as (r & Hr & Hstamp & _).
  assert (ArticleStorage.stored (Main.file (Main.main env f).2) !! v = Some r)
    as Hafter.
  { pose proof (cleanup_old_entries_keeps_fresh (Main.cleanup_now env)
                  (Main.cleanup_io env) Config.CLEANUP_DAYS
                  (ArticleStorage.Valid
                     (ArticleStorage.mark_all (Main.mark_now env) batch
                        (ArticleStorage.stored
                           (ArticleStorage.ensure_storage_exists
                              (Main.init_io env) f).2)))
                  v r Hcleanup Hr) as Hkeep.
    rewrite Hstamp in Hkeep. specialize (Hkeep Hfresh).
    rewrite Hmain.
    by destruct (ArticleStorage.cleanup_old_entries _ _ _ _) as [[?|?] f3]. }
  destruct (attempted_batch_Some _ _ _ Hnext) as [_ Hdigest'].
  destruct (digest_batch_Some _ _ _ Hdigest') as (_ & _ & _ & Helem').
  destruct (Helem' a' Hin') as ((u' & Hu' & Hunsent) & _).
  simpl in Hsame. rewrite Hv, Hu' in Hsame. injection Hsame as <-.
  revert Hunsent. rewrite is_sent_stored, ensure_storage_exists_stored.
  rewrite Hafter. by rewrite bool_decide_true.
Qed.

Lemma committed_article_is_not_sent_again_witness :
  Forall (fun a => Forall (fun a' => url a ≠ url a') Notions.next_batch)
    Examples.batch.
Proof.
  apply Forall_forall. intros a Hin. apply Forall_forall. intros a' Hin'.
  revert a a' Hin Hin'.
  apply (committed_article_is_not_sent_again
           (Examples.env Examples.transport_up ArticleStorage.WriteOk)
           Notions.next_env ArticleStorage.Missing).
  - by vm_compute.
  - by vm_compute.
  - reflexivity.
  - done.
  - by vm_compute.
  - by vm_compute.
Defined.

(** X22.  Only the disk makes a run fail.  With a disk that works, a run
    ends with status 0 whatever the feeds, the search API and the chat API
    answer (failing sources, a refused digest), nothing it reads from an
    article is missing, and the only messages it asks the chat API to
    send are digests: no alert is attempted. *)
Theorem run_fails_only_on_disk (env : Main.Env)
    (f : ArticleStorage.file_state) :
  Main.init_io env = ArticleStorage.WriteOk →
  Main.mark_io env = ArticleStorage.WriteOk →
  Main.cleanup_io env = ArticleStorage.WriteOk →
  (Main.main env f).1 = 0
  ∧ ∀ i m, TelegramNotifier.SendMessage i m ∈ Main.sent (Main.main env f).2 →
      ∃ batch, Main.attempted_batch env f = Some batch
               ∧ m = TelegramNotifier.format_digest_message (Main.clock env)
                       batch Config.MAX_ARTICLES_IN_DIGEST.
Proof.
  intros Hinit Hmark Hcleanup.
  assert ((ArticleStorage.ensure_storage_exists (Main.init_io env) f).1
          = Ret tt) as Hopen.
  { rewrite Hinit. by destruct f. }
  destruct (digest_batch_returns env
              (ArticleStorage.ensure_storage_exists (Main.init_io env) f).2)
    as [[batch|] Hdigest].
  2:{ rewrite (main_quiet env f Hopen Hdigest). split; [done|].
      by intros i m ?%elem_of_nil. }
  assert (Main.attempted_batch env f = Some batch) as Hbatch.
  { unfold Main.attempted_batch.
    destruct (ArticleStorage.ensure_storage_exists (Main.init_io env) f)
      as [r f1]. cbn [fst snd] in *. subst r.
    by rewrite Hdigest, (batch_titles _ _ _ Hdigest). }
  destruct (delivery_returns env batch) as [b Hdelivery].
  pose proof (main_after_delivery_events env f batch b Hbatch Hdelivery)
    as Hmain. cbv zeta in Hmain. rewrite Hmark, Hcleanup in Hmain.
  rewrite mark_multiple_as_sent_outcome in Hmain.
  assert (∀ i m,
            TelegramNotifier.SendMessage i m
            ∈ (TelegramNotifier.send_digest
                 (TelegramNotifier.init (Main.TELEGRAM_BOT_TOKEN env)
                    (Main.TELEGRAM_CHAT_ID env))
                 (Main.digest_transport env) (Main.clock env) batch
                 Config.MAX_ARTICLES_IN_DIGEST).2 →
            ∃ batch0, Some batch = Some batch0
                      ∧ m = TelegramNotifier.format_digest_message
                              (Main.clock env) batch0
                              Config.MAX_ARTICLES_IN_DIGEST) as Hsends.
  { intros i m Hin. exists batch. split; [done|].
    destruct (senders_accept_once
                (TelegramNotifier.init (Main.TELEGRAM_BOT_TOKEN env)
                   (Main.TELEGRAM_CHAT_ID env))
                (Main.digest_transport env) (Main.clock env) batch
                Config.MAX_ARTICLES_IN_DIGEST) as (_ & _ & Hcarry).
    by eapply Hcarry. }
  rewrite Hbatch, Hmain. destruct b.
  - destruct (cleanup_old_entries_answers (Main.cleanup_now env)
                Config.CLEANUP_DAYS
                (ArticleStorage.Valid
                   (ArticleStorage.mark_all (Main.mark_now env) batch
                      (ArticleStorage.stored
                         (ArticleStorage.ensure_storage_exists
                            (Main.init_io env) f).2))))
      as (removed & f3 & ->).
    by split.
  - destruct (cleanup_old_entries_answers (Main.cleanup_now env)
                Config.CLEANUP_DAYS
                (ArticleStorage.ensure_storage_exists (Main.init_io env) f).2)
      as (removed & f3 & ->).
    by split.
Qed.

Lemma run_fails_only_on_disk_witness :
  (Main.main (Examples.env Examples.transport_down ArticleStorage.WriteOk)
     Examples.old_file).1 = 0.
Proof.
  destruct (run_fails_only_on_disk
              (Examples.env Examples.transport_down ArticleStorage.WriteOk)
              Examples.old_file) as [Hstatus _]; [reflexivity..|].
  exact Hstatus.
Defined.

(** X23.  A run that finds nothing to send stops early: when every
    fetched article that matches a keyword is already in the tracker
    (in particular when nothing was fetched or nothing matched), the run
    ends with status 0, asks nothing of the chat API, logs no outcome and
    leaves the file as opening the storage left it; the pruning of old
    records does not run. *)
Theorem quiet_run_changes_nothing (env : Main.Env)
    (f : ArticleStorage.file_state) (all_articles : list Article) :
  (ArticleStorage.ensure_storage_exists (Main.init_io env) f).1 = Ret tt →
  NewsFetcher.fetch_all_articles (Main.world env)
    (NewsFetcher.init Config.RSS_FEEDS (Main.NEWSAPI_KEY env))
    Config.KEYWORDS Config.FETCH_WINDOW_HOURS = Ret all_articles →
  Forall (Notions.already_sent f)
    (KeywordMatcher.filter_articles (KeywordMatcher.init Config.KEYWORDS)
       all_articles) →
  Main.main env f
  = (0, {| Main.file :=
             (ArticleStorage.ensure_storage_exists (Main.init_io env) f).2;
           Main.sent := [];
           Main.log := [] |})
  ∧ ArticleStorage.stored (Main.file (Main.main env f).2)
    = ArticleStorage.stored f.
Proof.
  intros Hopen Hfetch Hsent.
  assert (Main.main env f
          = (0, {| Main.file :=
                     (ArticleStorage.ensure_storage_exists
                        (Main.init_io env) f).2;
                   Main.sent := [];
                   Main.log := [] |})) as Hmain.
  { apply main_quiet; [done|].
    unfold Main.digest_batch. rewrite Hfetch.
    unfold mbind, py_bind, Py.bind.
    destruct all_articles as [|x all]; [done|]. revert Hsent.
    destruct (KeywordMatcher.filter_articles _ _) as [|y matched];
      [done|].
    intros Hsent.
    rewrite (not_yet_sent_all_sent (y :: matched)
               (ArticleStorage.ensure_storage_exists (Main.init_io env) f).2);
      [done|].
    eapply Forall_impl; [exact Hsent|].
    intros a (u & Hu & Hknown). exists u. split; [done|].
    revert Hknown. by rewrite !is_sent_stored, ensure_storage_exists_stored. }
  split; [done|]. rewrite Hmain. apply ensure_storage_exists_stored.
Qed.

Lemma quiet_run_changes_nothing_witness :
  let env := Examples.env Examples.transport_up ArticleStorage.WriteOk in
  (Main.main env Notions.known_file).1 = 0
  ∧ Main.sent (Main.main env Notions.known_file).2 = [].
Proof.
  intros env.
  destruct (quiet_run_changes_nothing env Notions.known_file
              (NewsFetcher.first_seen ∅
                 (NewsFetcher.collect Examples.world Examples.fetcher
                    Config.KEYWORDS Config.FETCH_WINDOW_HOURS)))
    as [Hmain _].
  - reflexivity.
  - by vm_compute.
  - apply Forall_forall. intros a Hin. vm_compute in Hin.
    repeat (apply elem_of_cons in Hin as [->|Hin];
            [eexists; split; [reflexivity|by vm_compute]|]).
    by apply elem_of_nil in Hin.
  - rewrite Hmain. by split.
Defined.
